(** * Ravelin: vector storage, spatial-vector pairing and the spherical joint

    A shallow embedding of the parts of Ravelin that the specification's
    claims are about:

    - [VectorN.cpp]: [VECTORN::resize], [VECTORN::compress],
      [VECTORN::segment], the copy constructor, the assignments of a vector
      and of a scalar, [VECTORN::parse] and [SAXIS::dot];
    - the inline code of the constant shared vector view ([operator[]],
      [data] and [get_sub_vec]);
    - [SphericalJoint.cpp]: [rel_equal], [get_axis], [update_spatial_axes],
      [assign_axes], [get_spatial_axes], [get_spatial_axes_dot] and
      [get_rotation].

    [REAL] (float or double in the sources) is idealised as the real
    numbers; [unsigned] is a natural number below [2^32] whose additions and
    subtractions wrap; a [boost::shared_array<REAL>] is a location in a
    store of arrays, so that two holders of one array alias. *)

From Stdlib Require Import Reals Lra NArith Lia Ascii String.
From stdpp Require Import base option list gmap strings.

(** ** Outcomes of a call *)

Inductive exn : Type :=
  | InvalidIndexException
  | runtime_error (what : string).

(** A call returns, throws, stops at a failed [assert], or has undefined
    behaviour (an access outside an array). *)
Inductive outcome (A : Type) : Type :=
  | Ok (a : A)
  | Throw (e : exn)
  | Abort
  | Undefined.

Arguments Ok {A} a.
Arguments Throw {A} e.
Arguments Abort {A}.
Arguments Undefined {A}.

#[export] Instance outcome_ret : MRet outcome := fun A a => Ok a.

#[export] Instance outcome_bind : MBind outcome := fun A B f m =>
  match m with
  | Ok a => f a
  | Throw e => Throw e
  | Abort => Abort
  | Undefined => Undefined
  end.

(** [v[i]] on a [std::vector]: no bounds check, undefined outside. *)
Definition vector_modify {A : Type} (v : list A) (i : nat) (f : A -> A)
    : outcome (list A) :=
  match v !! i with
  | Some a => Ok (<[i := f a]> v)
  | None => Undefined
  end.

(** ** [unsigned] arithmetic *)

Definition UINT_MOD : N := 2 ^ 32.

Definition uadd (a b : N) : N := ((a + b) mod UINT_MOD)%N.

Definition usub (a b : N) : N := ((a + UINT_MOD - b mod UINT_MOD) mod UINT_MOD)%N.

(** ** The store of shared arrays *)

Abbreviation REAL := R.

(** A cell of a [new REAL[n]] array holds no determined value until it is
    written. *)
Definition cell : Type := option REAL.

Definition loc : Type := nat.

Abbreviation store := (gmap loc (list cell)).

(** [boost::shared_array<REAL>(new REAL[n])]: a fresh location holding [n]
    undetermined cells. *)
Definition new_array (n : N) : list cell := replicate (N.to_nat n) None.

Definition fresh_loc (h : store) : loc := fresh (dom h).

(** The array a (possibly null) shared array points to. *)
Definition array_at (h : store) (p : option loc) : list cell :=
  match p with
  | Some l => default [] (h !! l)
  | None => []
  end.

(** Modelled from the spec: the linear-copy primitive [CBLAS::copy(n, x,
    incx, y, incy)] of cblas.h, a header that is only included by the code
    modelled here. It copies [n] elements of [x], [incx] apart, to [y],
    [incy] apart; leaving either array is undefined. *)
Fixpoint CBLAS_copy (n : nat) (x : list cell) (incx : nat)
    (y : list cell) (incy : nat) : option (list cell) :=
  match n with
  | O => Some y
  | S k =>
      match CBLAS_copy k x incx y incy with
      | Some y' =>
          match x !! (k * incx)%nat with
          | Some c =>
              if decide (k * incy < length y')%nat
              then Some (<[(k * incy)%nat := c]> y')
              else None
          | None => None
          end
      | None => None
      end
  end.

(** [p[i] = r] on a shared array: a store to cell [i] of the array [p]
    points to, undefined outside the array or through a null pointer. *)
Definition array_write (h : store) (p : option loc) (i : nat) (r : REAL)
    : outcome store :=
  match p with
  | Some l =>
      if decide (i < length (array_at h p))%nat
      then Ok (<[l := <[i := Some r]> (array_at h p)]> h)
      else Undefined
  | None => Undefined
  end.

(** Modelled from the spec: [CBLAS::copy(n, x, incx, y, incy)] between two
    places of the store, [x] and [y] being pointers [ox] and [oy] cells into
    their arrays. The elements are copied one after the other, from the
    first on, so that a source that overlaps the destination is read as the
    copy has left it. *)
Fixpoint CBLAS_copy_store (n : nat) (h : store)
    (x : option loc) (ox incx : nat) (y : option loc) (oy incy : nat)
    : option store :=
  match n with
  | O => Some h
  | S k =>
      match CBLAS_copy_store k h x ox incx y oy incy with
      | Some h' =>
          match array_at h' x !! (ox + k * incx)%nat, y with
          | Some c, Some ly =>
              if decide (oy + k * incy < length (array_at h' y))%nat
              then Some (<[ly := <[(oy + k * incy)%nat := c]> (array_at h' y)]> h')
              else None
          | _, _ => None
          end
      | None => None
      end
  end.

(** ** The shared vector view *)

Module SharedVectorN.

Record t : Type := mk
  { _data : option loc;
    _start : N;
    _len : N;
    _inc : N }.

(** [REAL operator[](unsigned i) const]. [NEXCEPT] tells whether the
    macro of that name is defined (an unchecked build). *)
Definition operator_index (NEXCEPT : bool) (h : store) (x : t) (i : N)
    : outcome cell :=
  if negb NEXCEPT && (_len x <? i)%N then Throw InvalidIndexException
  else
    match array_at h (_data x) !! N.to_nat (uadd i (_start x)) with
    | Some c => Ok c
    | None => Undefined
    end.

(** [const REAL* data(unsigned i) const]: the address of element [i], as
    an offset into the shared array. *)
Definition data_at (NEXCEPT : bool) (x : t) (i : N) : outcome N :=
  if negb NEXCEPT && (_len x <=? i)%N then Throw InvalidIndexException
  else Ok (uadd i (_start x)).

(** Modelled from the spec: the writing accessor of a view (mutating
    through a view mutates the underlying buffer), of which only the
    reading counterpart above is available. It stores at the cell the
    reading accessor reads. *)
Definition assign_index (NEXCEPT : bool) (h : store) (x : t) (i : N)
    (r : REAL) : outcome store :=
  if negb NEXCEPT && (_len x <? i)%N then Throw InvalidIndexException
  else
    match _data x with
    | Some l =>
        let a := array_at h (Some l) in
        let k := N.to_nat (uadd i (_start x)) in
        if decide (k < length a)%nat
        then Ok (<[l := <[k := Some r]> a]> h)
        else Undefined
    | None => Undefined
    end.

End SharedVectorN.

(** ** The owning vector *)

Module VectorN.

Record t : Type := mk
  { _data : option loc;
    _len : N;
    _capacity : N }.

(** The array behind the vector, and its element [i]. *)
Definition buffer (h : store) (v : t) : list cell := array_at h (_data v).

Definition element (h : store) (v : t) (i : nat) : option cell :=
  buffer h v !! i.

(** [VECTORN::VECTORN()] *)
Definition create_empty : t :=
  {| _data := None; _len := 0; _capacity := 0 |}.

(** [VECTORN::VECTORN(unsigned N)] *)
Definition create (h : store) (n : N) : store * t :=
  let l := fresh_loc h in
  (<[l := new_array n]> h,
   {| _data := Some l; _len := n; _capacity := n |}).

(** [void VECTORN::compress()] *)
Definition compress (h : store) (v : t) : outcome (store * t) :=
  if (_len v =? _capacity v)%N then Ok (h, v)
  else
    let l := fresh_loc h in
    let newdata := new_array (_len v) in
    match CBLAS_copy (N.to_nat (_len v)) (buffer h v) 1 newdata 1 with
    | Some a =>
        Ok (<[l := a]> h,
            {| _data := Some l; _len := _len v; _capacity := _len v |})
    | None => Undefined
    end.

(** [VECTORN& VECTORN::resize(unsigned N, bool preserve)] *)
Definition resize (h : store) (v : t) (n : N) (preserve : bool)
    : outcome (store * t) :=
  if (_len v =? n)%N then Ok (h, v)
  else if (n <? _capacity v)%N then
    Ok (h, {| _data := _data v; _len := n; _capacity := _capacity v |})
  else
    let l := fresh_loc h in
    let newdata := new_array n in
    let fill :=
      if preserve
      then CBLAS_copy (N.to_nat (_len v)) (buffer h v) 1 newdata 1
      else Some newdata in
    match fill with
    | Some a =>
        Ok (<[l := a]> h, {| _data := Some l; _len := n; _capacity := n |})
    | None => Undefined
    end.

(** [SHAREDVECTORN VECTORN::segment(unsigned start_idx, unsigned end_idx)] *)
Definition segment (NEXCEPT : bool) (v : t) (start_idx end_idx : N)
    : outcome SharedVectorN.t :=
  if negb NEXCEPT && ((end_idx <? start_idx)%N || (_len v <? end_idx)%N)
  then Throw InvalidIndexException
  else
    Ok {| SharedVectorN._data := _data v;
          SharedVectorN._start := start_idx;
          SharedVectorN._len := usub end_idx start_idx;
          SharedVectorN._inc := 1 |}.

(** The invariant of the data model: the length does not exceed the
    capacity, the array has as many cells as the capacity says, and a
    vector that has an array has it in the store. *)
Definition well_formed (h : store) (v : t) : Prop :=
  (_len v <= _capacity v)%N
  /\ length (buffer h v) = N.to_nat (_capacity v)
  /\ forall l : loc, _data v = Some l -> is_Some (h !! l).

(** [VECTORN& VECTORN::operator=(const VECTORN& source)]. [resize] is
    called with one argument; its second one defaults to false, as the
    declaration of [MATRIX3::resize] in Matrix3.h shows for that class. *)
Definition operator_assign (h : store) (v source : t)
    : outcome (store * t) :=
  '(h, v) ← (if negb (_len v =? _len source)%N
             then resize h v (_len source) false
             else Ok (h, v));
  if (0 <? _len v)%N then
    match CBLAS_copy_store (N.to_nat (_len source)) h
            (_data source) 0 1 (_data v) 0 1 with
    | Some h' => Ok (h', v)
    | None => Undefined
    end
  else Ok (h, v).

(** [VECTORN::VECTORN(const VECTORN& source)] *)
Definition copy_construct (h : store) (source : t) : outcome (store * t) :=
  let l := fresh_loc h in
  operator_assign (<[l := new_array (_len source)]> h)
    {| _data := Some l; _len := _len source; _capacity := _capacity source |}
    source.

(** [VECTORN& VECTORN::operator=(REAL scalar)] *)
Definition operator_assign_scalar (h : store) (v : t) (scalar : REAL)
    : outcome (store * t) :=
  '(h, v) ← resize h v 1 false;
  h ← array_write h (_data v) 0 scalar;
  Ok (h, v).

(** *** [VECTORN::parse] *)

(** A [std::string] is the list of its characters; a position is a natural
    number and [std::string::npos] is [None]. [s.substr(0, n)] is
    [take n s] and [s.substr(n)] is [drop n s]. *)
Definition find_first_of (s chars : list ascii) : option nat :=
  fst <$> list_find (fun c => c ∈ chars) s.

Definition find_first_not_of (s chars : list ascii) : option nat :=
  fst <$> list_find (fun c => c ∉ chars) s.

Definition TAB : ascii := "009"%char.

(** The first loop of [parse]: the list of tokens, or [None] when [fuel]
    rounds of the [while (true)] do not reach a [break]. The test
    [(space_idx != npos && space_idx < comma_idx) || comma_idx == npos],
    with [npos] the largest position, picks the space position when there
    is no comma or when the space comes first, and the comma position
    otherwise. *)
Fixpoint parse_tokens (fuel : nat) (copy : list ascii)
    (plist : list (list ascii)) : option (list (list ascii)) :=
  match fuel with
  | O => None
  | S fuel =>
      let space_idx := find_first_of copy [" "%char; TAB] in
      let comma_idx := find_first_of copy [","%char] in
      match
        match space_idx, comma_idx with
        | None, None => None
        | Some sp, None => Some sp
        | Some sp, Some cm => if (sp <? cm)%nat then Some sp else Some cm
        | None, Some cm => Some cm
        end
      with
      | None => Some (plist ++ [copy])
      | Some idx =>
          let plist := plist ++ [take idx copy] in
          let copy := drop idx copy in
          match find_first_not_of copy [" "%char; ","%char] with
          | None => Some plist
          | Some firstidx => parse_tokens fuel (drop firstidx copy) plist
          end
      end
  end.

(** The three characters that end a token. *)
Definition delimiters : list ascii := [" "%char; TAB; ","%char].

(** Tokens written one after the other with [sep] between them. *)
Fixpoint join_tokens (sep : list ascii) (tok : list ascii)
    (toks : list (list ascii)) : list ascii :=
  match toks with
  | [] => tok
  | tok' :: toks => tok ++ sep ++ join_tokens sep tok' toks
  end.

(** [s.c_str()], as C functions read it: the characters before the first
    zero character. *)
Definition c_str (s : list ascii) : list ascii :=
  match find_first_of s ["000"%char] with
  | Some i => take i s
  | None => s
  end.

Definition to_lower (c : ascii) : ascii :=
  let n := nat_of_ascii c in
  if (65 <=? n)%nat && (n <=? 90)%nat then ascii_of_nat (n + 32) else c.

(** [strcasecmp(a, b) == 0] *)
Definition strcasecmp_zero (a b : list ascii) : bool :=
  bool_decide (to_lower <$> a = to_lower <$> b).

Section Parse.

(** The C function [atof] and the value [numeric_limits<REAL>::infinity()]
    are taken as they come. *)
Variable atof : list ascii -> REAL.
Variable infinity : REAL.

(** The value the second loop of [parse] stores for a token. *)
Definition token_value (tok : list ascii) : REAL :=
  if strcasecmp_zero (c_str tok) (list_ascii_of_string "inf") then infinity
  else if strcasecmp_zero (c_str tok) (list_ascii_of_string "-inf")
  then (- infinity)%R
  else atof (c_str tok).

(** The second loop: [values[idx] = ...; idx++] for each token. Modelled
    from the spec: the indexed assignment to an element of the vector, a
    store to cell [idx] of its array. *)
Fixpoint store_values (h : store) (values : t) (idx : nat)
    (plist : list (list ascii)) : outcome store :=
  match plist with
  | [] => Ok h
  | tok :: plist =>
      h ← array_write h (_data values) idx (token_value tok);
      store_values h values (S idx) plist
  end.

(** [VECTORN& VECTORN::parse(const std::string& s, VECTORN& values)]; the
    number of tokens is converted to [unsigned] for [resize]. *)
Definition parse (fuel : nat) (h : store) (s : list ascii) (values : t)
    : option (outcome (store * t)) :=
  match parse_tokens fuel s [] with
  | None => None
  | Some plist =>
      Some ('(h, values) ← resize h values
                             (N.of_nat (length plist) mod UINT_MOD)%N false;
            h ← store_values h values 0 plist;
            Ok (h, values))
  end.

End Parse.

End VectorN.

(** ** Copying out of a view *)

Module SharedVectorNCopy.

(** [template <class V> V& get_sub_vec(unsigned start, unsigned end, V& v)
    const], for [V = VECTORN], whose [data()] is the start of its array and
    whose [inc()] is 1. The two pointers compared by [sizeof] have one size,
    so that test never throws. *)
Definition get_sub_vec (NEXCEPT : bool) (h : store) (x : SharedVectorN.t)
    (start end_idx : N) (v : VectorN.t) : outcome (store * VectorN.t) :=
  if negb NEXCEPT
     && ((end_idx <? start)%N || (SharedVectorN._len x <? end_idx)%N)
  then Throw InvalidIndexException
  else
    let SZ := usub end_idx start in
    '(h, v) ← VectorN.resize h v SZ false;
    if (SharedVectorN._len x =? 0)%N || (SZ =? 0)%N then Ok (h, v)
    else
      p ← SharedVectorN.data_at NEXCEPT x start;
      match CBLAS_copy_store (N.to_nat SZ) h
              (SharedVectorN._data x) (N.to_nat p)
              (N.to_nat (SharedVectorN._inc x))
              (VectorN._data v) 0 1 with
      | Some h' => Ok (h', v)
      | None => Undefined
      end.

End SharedVectorNCopy.

(** ** Three-dimensional values *)

Open Scope R_scope.

(** Comparisons of reals decide, so that the tests of the code can be
    written as tests. *)
#[export] Instance Rlt_decision (a b : R) : Decision (a < b) := Rlt_dec a b.

#[export] Instance Rle_decision (a b : R) : Decision (a <= b) := Rle_dec a b.

(** A [boost::shared_ptr<const POSE3>]: null, or the identity of a pose. *)
Definition PosePtr : Type := option nat.

Record ORIGIN3 : Type := mkORIGIN3 { ox : REAL; oy : REAL; oz : REAL }.

Record VECTOR3 : Type := mkVECTOR3
  { vx : REAL; vy : REAL; vz : REAL; pose : PosePtr }.

(** The accessors of Matrix3.h name the entries. *)
Record MATRIX3 : Type := mkMATRIX3
  { xx : REAL; xy : REAL; xz : REAL;
    yx : REAL; yy : REAL; yz : REAL;
    zx : REAL; zy : REAL; zz : REAL }.

(** [ORIGIN3(v)] and [VECTOR3(o, pose)] *)
Definition ORIGIN3_of (v : VECTOR3) : ORIGIN3 :=
  mkORIGIN3 (vx v) (vy v) (vz v).

Definition VECTOR3_of (o : ORIGIN3) (p : PosePtr) : VECTOR3 :=
  mkVECTOR3 (ox o) (oy o) (oz o) p.

(** The elementary operations on 3-vectors and 3x3 matrices that the joint
    uses are declared in Matrix3.h or come from files that the joint only
    includes. *)

(** Modelled from the spec: the cross product, [ORIGIN3::cross]. *)
Definition ORIGIN3_cross (a b : ORIGIN3) : ORIGIN3 :=
  mkORIGIN3 (oy a * oz b - oz a * oy b)
            (oz a * ox b - ox a * oz b)
            (ox a * oy b - oy a * ox b).

(** Modelled from the spec: the sum of two triples, [operator+]. *)
Definition ORIGIN3_plus (a b : ORIGIN3) : ORIGIN3 :=
  mkORIGIN3 (ox a + ox b) (oy a + oy b) (oz a + oz b).

(** Modelled from the spec: the cross product of two vectors of one
    frame, [VECTOR3::cross]. *)
Definition VECTOR3_cross (a b : VECTOR3) : VECTOR3 :=
  VECTOR3_of (ORIGIN3_cross (ORIGIN3_of a) (ORIGIN3_of b)) (pose a).

(** Modelled from the spec: a vector times a scalar, [operator*]. *)
Definition VECTOR3_scale (v : VECTOR3) (s : REAL) : VECTOR3 :=
  mkVECTOR3 (vx v * s) (vy v * s) (vz v * s) (pose v).

(** Modelled from the spec: the Euclidean norm, [norm()]. *)
Definition VECTOR3_norm (v : VECTOR3) : REAL :=
  sqrt (vx v * vx v + vy v * vy v + vz v * vz v).

(** Modelled from the spec: the vector divided by its norm,
    [normalize()]. *)
Definition VECTOR3_normalize (v : VECTOR3) : VECTOR3 :=
  mkVECTOR3 (vx v / VECTOR3_norm v) (vy v / VECTOR3_norm v)
            (vz v / VECTOR3_norm v) (pose v).

(** Modelled from the spec: the Euclidean dot product, [VECTOR3::dot]. *)
Definition VECTOR3_dot (a b : VECTOR3) : REAL :=
  vx a * vx b + vy a * vy b + vz a * vz b.

(** Modelled from the spec: a matrix applied to a triple, [mult] of
    Matrix3.h. *)
Definition MATRIX3_mult_origin (m : MATRIX3) (o : ORIGIN3) : ORIGIN3 :=
  mkORIGIN3 (xx m * ox o + xy m * oy o + xz m * oz o)
            (yx m * ox o + yy m * oy o + yz m * oz o)
            (zx m * ox o + zy m * oy o + zz m * oz o).

(** Modelled from the spec: the product of two matrices, [mult] of
    Matrix3.h. *)
Definition MATRIX3_mult (a b : MATRIX3) : MATRIX3 :=
  mkMATRIX3
    (xx a * xx b + xy a * yx b + xz a * zx b)
    (xx a * xy b + xy a * yy b + xz a * zy b)
    (xx a * xz b + xy a * yz b + xz a * zz b)
    (yx a * xx b + yy a * yx b + yz a * zx b)
    (yx a * xy b + yy a * yy b + yz a * zy b)
    (yx a * xz b + yy a * yz b + yz a * zz b)
    (zx a * xx b + zy a * yx b + zz a * zx b)
    (zx a * xy b + zy a * yy b + zz a * zy b)
    (zx a * xz b + zy a * yz b + zz a * zz b).

(** ** Spatial vectors *)

(** Modelled from the spec: a spatial quantity is (angular, linear, frame);
    its six numbers are [data()[0..5]], the angular part first. Only the
    use of the class is available, not its declaration. *)
Record SVECTOR6 : Type := mkSVECTOR6
  { d0 : REAL; d1 : REAL; d2 : REAL;
    d3 : REAL; d4 : REAL; d5 : REAL;
    spose : PosePtr }.

(** Modelled from the spec: the angular and the linear part, and their
    setters. *)
Definition get_angular (s : SVECTOR6) : ORIGIN3 :=
  mkORIGIN3 (d0 s) (d1 s) (d2 s).

Definition get_linear (s : SVECTOR6) : ORIGIN3 :=
  mkORIGIN3 (d3 s) (d4 s) (d5 s).

Definition set_angular (s : SVECTOR6) (v : VECTOR3) : SVECTOR6 :=
  mkSVECTOR6 (vx v) (vy v) (vz v) (d3 s) (d4 s) (d5 s) (spose s).

Definition set_linear (s : SVECTOR6) (v : VECTOR3) : SVECTOR6 :=
  mkSVECTOR6 (d0 s) (d1 s) (d2 s) (vx v) (vy v) (vz v) (spose s).

(** The motion and force categories are distinct classes over the same
    six numbers. *)
Record SVELOCITY : Type := mkSVELOCITY { velocity_vec : SVECTOR6 }.
Record SFORCE : Type := mkSFORCE { force_vec : SVECTOR6 }.
Record SMOMENTUM : Type := mkSMOMENTUM { momentum_vec : SVECTOR6 }.

Module SAxis.

Record t : Type := mk { vec : SVECTOR6 }.

(** The twelve-term expression both overloads of [SAXIS::dot] return. *)
Definition dot_data (a b : SVECTOR6) : REAL :=
  d3 a + d0 b + d4 a + d1 b + d5 a + d2 b +
  d0 a + d3 b + d1 a + d4 b + d2 a + d5 b.

(** [REAL SAXIS::dot(const SMOMENTUM& v2) const] *)
Definition dot_momentum (a : t) (v2 : SMOMENTUM) : REAL :=
  dot_data (vec a) (momentum_vec v2).

(** [REAL SAXIS::dot(const SFORCE& v2) const] *)
Definition dot (a : t) (v2 : SFORCE) : REAL :=
  dot_data (vec a) (force_vec v2).

End SAxis.

(** The pairing the specification asks of the dot product of a motion and a
    force quantity. *)
Definition screw_pairing (m f : SVECTOR6) : REAL :=
  (ox (get_angular m) * ox (get_linear f) + ox (get_linear m) * ox (get_angular f)) +
  (oy (get_angular m) * oy (get_linear f) + oy (get_linear m) * oy (get_angular f)) +
  (oz (get_angular m) * oz (get_linear f) + oz (get_linear m) * oz (get_angular f)).

Definition SVELOCITY_set_angular (s : SVELOCITY) (v : VECTOR3) : SVELOCITY :=
  mkSVELOCITY (set_angular (velocity_vec s) v).

Definition SVELOCITY_set_linear (s : SVELOCITY) (v : VECTOR3) : SVELOCITY :=
  mkSVELOCITY (set_linear (velocity_vec s) v).

Definition SVELOCITY_get_angular (s : SVELOCITY) : ORIGIN3 :=
  get_angular (velocity_vec s).

Definition SVELOCITY_get_linear (s : SVELOCITY) : ORIGIN3 :=
  get_linear (velocity_vec s).

(** ** The spherical joint *)

(** [enum Axis] of the joint; [DOF_1], [DOF_2], [DOF_3] are the same three
    positions, used as indices of the coordinate vectors and of the spatial
    axes. *)
Inductive Axis : Type := eAxis1 | eAxis2 | eAxis3.

Definition DOF_1 : nat := 0.
Definition DOF_2 : nat := 1.
Definition DOF_3 : nat := 2.

(** An array of three values, as [VECTOR3 _u[3]], and the three entries of a
    coordinate vector of the joint. *)
Record array3 (A : Type) : Type := mkarray3 { at1 : A; at2 : A; at3 : A }.

Arguments mkarray3 {A} _ _ _.
Arguments at1 {A} _.
Arguments at2 {A} _.
Arguments at3 {A} _.

Definition get3 {A : Type} (a : array3 A) (i : Axis) : A :=
  match i with
  | eAxis1 => at1 a
  | eAxis2 => at2 a
  | eAxis3 => at3 a
  end.

Definition set3 {A : Type} (a : array3 A) (i : Axis) (x : A) : array3 A :=
  match i with
  | eAxis1 => mkarray3 x (at2 a) (at3 a)
  | eAxis2 => mkarray3 (at1 a) x (at3 a)
  | eAxis3 => mkarray3 (at1 a) (at2 a) x
  end.

Module SphericalJoint.

(** The state of a joint that the functions below read and write. [_F] is
    what [get_pose()] returns; [inboard_pose] and [outboard_pose] are what
    [get_inboard_pose()] and [get_outboard_pose()] return. *)
Record t : Type := mk
  { _F : PosePtr;
    inboard_pose : PosePtr;
    outboard_pose : PosePtr;
    _u : array3 VECTOR3;
    q : array3 REAL;
    _q_tare : array3 REAL;
    qd : array3 REAL;
    _s : list SVELOCITY;
    _s_dot : list SVELOCITY }.

Definition with_u (j : t) (u : array3 VECTOR3) : t :=
  mk (_F j) (inboard_pose j) (outboard_pose j) u (q j) (_q_tare j) (qd j)
     (_s j) (_s_dot j).

Definition with_s (j : t) (s : list SVELOCITY) : t :=
  mk (_F j) (inboard_pose j) (outboard_pose j) (_u j) (q j) (_q_tare j)
     (qd j) s (_s_dot j).

Definition with_s_dot (j : t) (sd : list SVELOCITY) : t :=
  mk (_F j) (inboard_pose j) (outboard_pose j) (_u j) (q j) (_q_tare j)
     (qd j) (_s j) sd.

(** The public coordinate vectors [q], [qd] and the tare are set from
    outside the joint. *)
Definition with_coordinates (j : t) (qv tare qdv : array3 REAL) : t :=
  mk (_F j) (inboard_pose j) (outboard_pose j) (_u j) qv tare qdv
     (_s j) (_s_dot j).

Definition get_pose (j : t) : PosePtr := _F j.

(** What the joint uses from outside its own file, taken as parameters:
    the tolerance [EPS] of Constants.h, whether [NDEBUG] disables [assert],
    the basis completion of VECTOR3, the rotation matrix of an axis-angle
    pair ([MATRIX3 R = AANGLE(axis, angle)]) and the two methods of the
    base class JOINT that the spherical joint calls. *)
Class Externals : Type :=
  { EPS : REAL;
    NDEBUG : bool;
    determine_orthonormal_basis : VECTOR3 -> VECTOR3 * VECTOR3;
    AANGLE : VECTOR3 -> REAL -> MATRIX3;
    JOINT_update_spatial_axes : t -> outcome t;
    JOINT_get_spatial_axes : t -> outcome (t * list SVELOCITY) }.

Section WithExternals.

Context {ext : Externals}.

(** [VECTOR3 SPHERICALJOINT::get_axis(Axis a) const] *)
Definition get_axis (j : t) (a : Axis) : VECTOR3 :=
  match a with
  | eAxis1 => at1 (_u j)
  | eAxis2 =>
      let c1 := cos (at1 (q j) + at1 (_q_tare j)) in
      let s1 := sin (at1 (q j) + at1 (_q_tare j)) in
      mkVECTOR3 0 c1 s1 (pose (at1 (_u j)))
  | eAxis3 =>
      let c1 := cos (at1 (q j) + at1 (_q_tare j)) in
      let s1 := sin (at1 (q j) + at1 (_q_tare j)) in
      let c2 := cos (at2 (q j) + at2 (_q_tare j)) in
      let s2 := sin (at2 (q j) + at2 (_q_tare j)) in
      mkVECTOR3 s2 (- c2 * s1) (c1 * c2) (pose (at1 (_u j)))
  end.

(** [_u[a].norm() < EPS] *)
Definition unset (j : t) (a : Axis) : bool :=
  bool_decide (VECTOR3_norm (get3 (_u j) a) < EPS).

(** [bool SPHERICALJOINT::assign_axes()] *)
Definition assign_axes (j : t) : bool * t :=
  let u1 := at1 (_u j) in
  let u2 := at2 (_u j) in
  let u3 := at3 (_u j) in
  if unset j eAxis1 then
    if unset j eAxis2 then
      if unset j eAxis3 then (false, j)
      else
        let u3 := VECTOR3_normalize u3 in
        let '(b1, b2) := determine_orthonormal_basis u3 in
        (true, with_u j (mkarray3 b1 b2 u3))
    else
      if unset j eAxis3 then
        let u2 := VECTOR3_normalize u2 in
        let '(b3, b1) := determine_orthonormal_basis u2 in
        (true, with_u j (mkarray3 b1 u2 b3))
      else
        let u2 := VECTOR3_normalize u2 in
        let u3 := VECTOR3_normalize u3 in
        (true, with_u j (mkarray3 (VECTOR3_cross u2 u3) u2 u3))
  else
    if unset j eAxis2 then
      if unset j eAxis3 then
        let u1 := VECTOR3_normalize u1 in
        let '(b2, b3) := determine_orthonormal_basis u1 in
        (true, with_u j (mkarray3 u1 b2 b3))
      else
        let u1 := VECTOR3_normalize u1 in
        let u3 := VECTOR3_normalize u3 in
        (true, with_u j (mkarray3 u1 (VECTOR3_cross u3 u1) u3))
    else
      if unset j eAxis3 then
        let u1 := VECTOR3_normalize u1 in
        let u2 := VECTOR3_normalize u2 in
        (true, with_u j (mkarray3 u1 u2 (VECTOR3_cross u1 u2)))
      else (true, j).

(** The six assertions that end [update_spatial_axes]. *)
Definition axes_orthonormal (j : t) : bool :=
  let u1 := at1 (_u j) in
  let u2 := at2 (_u j) in
  let u3 := at3 (_u j) in
  bool_decide (Rabs (VECTOR3_norm u1 - 1) < EPS)
  && bool_decide (Rabs (VECTOR3_norm u2 - 1) < EPS)
  && bool_decide (Rabs (VECTOR3_norm u3 - 1) < EPS)
  && bool_decide (Rabs (VECTOR3_dot u1 u2) < EPS)
  && bool_decide (Rabs (VECTOR3_dot u1 u3) < EPS)
  && bool_decide (Rabs (VECTOR3_dot u2 u3) < EPS).

(** [void SPHERICALJOINT::update_spatial_axes()] *)
Definition update_spatial_axes (j : t) : outcome t :=
  j ← JOINT_update_spatial_axes j;
  let '(assigned, j) := assign_axes j in
  if negb assigned then Ok j
  else
    let ZEROS_3 := mkVECTOR3 0 0 0 (get_pose j) in
    s ← vector_modify (_s j) DOF_1
          (fun a => SVELOCITY_set_angular a (at1 (_u j)));
    s ← vector_modify s DOF_1 (fun a => SVELOCITY_set_linear a ZEROS_3);
    sd ← vector_modify (_s_dot j) DOF_1
           (fun a => SVELOCITY_set_angular a ZEROS_3);
    sd ← vector_modify sd DOF_1 (fun a => SVELOCITY_set_linear a ZEROS_3);
    let j := with_s_dot (with_s j s) sd in
    if NDEBUG || axes_orthonormal j then Ok j else Abort.

(** [const vector<SVELOCITY>& SPHERICALJOINT::get_spatial_axes()] *)
Definition get_spatial_axes (j : t) : outcome (t * list SVELOCITY) :=
  let ZEROS_3 := mkVECTOR3 0 0 0 (get_pose j) in
  match inboard_pose j with
  | None =>
      Throw (runtime_error
        "SPHERICALJOINT::get_spatial_axes() called with NULL inboard pose")
  | Some _ =>
  match outboard_pose j with
  | None =>
      Throw (runtime_error
        "SPHERICALJOINT::get_spatial_axes() called with NULL outboard pose")
  | Some _ =>
      let R1 := AANGLE (at1 (_u j)) (at1 (q j) + at1 (_q_tare j)) in
      let u2 :=
        VECTOR3_of (MATRIX3_mult_origin R1 (ORIGIN3_of (at2 (_u j))))
                   (get_pose j) in
      let R2 := AANGLE (at2 (_u j)) (at2 (q j) + at2 (_q_tare j)) in
      let u3 :=
        VECTOR3_of
          (MATRIX3_mult_origin R1
             (MATRIX3_mult_origin R2 (ORIGIN3_of (at3 (_u j)))))
          (get_pose j) in
      s ← vector_modify (_s j) DOF_2 (fun a => SVELOCITY_set_angular a u2);
      s ← vector_modify s DOF_2 (fun a => SVELOCITY_set_linear a ZEROS_3);
      s ← vector_modify s DOF_3 (fun a => SVELOCITY_set_angular a u3);
      s ← vector_modify s DOF_3 (fun a => SVELOCITY_set_linear a ZEROS_3);
      JOINT_get_spatial_axes (with_s j s)
  end
  end.

(** [const vector<SVELOCITY>& SPHERICALJOINT::get_spatial_axes_dot()] *)
Definition get_spatial_axes_dot (j : t) : outcome (t * list SVELOCITY) :=
  let ZEROS_3 := mkVECTOR3 0 0 0 (get_pose j) in
  match inboard_pose j with
  | None =>
      Throw (runtime_error
        "SPHERICALJOINT::get_spatial_axes_dot() called with NULL inboard pose")
  | Some _ =>
  match outboard_pose j with
  | None =>
      Throw (runtime_error
        "SPHERICALJOINT::get_spatial_axes_dot() called with NULL outboard pose")
  | Some _ =>
      let qd1 := at1 (qd j) in
      let qd2 := at2 (qd j) in
      let R1 := AANGLE (at1 (_u j)) (at1 (q j) + at1 (_q_tare j)) in
      let omega1 := VECTOR3_scale (at1 (_u j)) qd1 in
      let u2 :=
        ORIGIN3_cross (ORIGIN3_of omega1)
          (MATRIX3_mult_origin R1 (ORIGIN3_of (at2 (_u j)))) in
      sd ← vector_modify (_s_dot j) DOF_2
             (fun a => SVELOCITY_set_angular a (VECTOR3_of u2 (get_pose j)));
      sd ← vector_modify sd DOF_2 (fun a => SVELOCITY_set_linear a ZEROS_3);
      let R2 := AANGLE (at2 (_u j)) (at2 (q j) + at2 (_q_tare j)) in
      let omega2 := VECTOR3_scale (at2 (_u j)) qd2 in
      let u3 :=
        ORIGIN3_plus
          (ORIGIN3_cross (ORIGIN3_of omega1)
             (MATRIX3_mult_origin (MATRIX3_mult R1 R2)
                (ORIGIN3_of (at3 (_u j)))))
          (MATRIX3_mult_origin R1
             (ORIGIN3_cross (ORIGIN3_of omega2)
                (MATRIX3_mult_origin R2 (ORIGIN3_of (at3 (_u j)))))) in
      sd ← vector_modify sd DOF_3
             (fun a => SVELOCITY_set_angular a (VECTOR3_of u3 (get_pose j)));
      sd ← vector_modify sd DOF_3 (fun a => SVELOCITY_set_linear a ZEROS_3);
      Ok (with_s_dot j sd, sd)
  end
  end.


(** [MATRIX3 SPHERICALJOINT::get_rotation() const]; the two transformed
    axes it computes on the way are not used. *)
Definition get_rotation (j : t) : MATRIX3 :=
  let R1 := AANGLE (at1 (_u j)) (at1 (q j) + at1 (_q_tare j)) in
  let R2 := AANGLE (at2 (_u j)) (at2 (q j) + at2 (_q_tare j)) in
  MATRIX3_mult (MATRIX3_mult R1 R2)
    (AANGLE (at3 (_u j)) (at3 (q j) + at3 (_q_tare j))).

End WithExternals.

End SphericalJoint.

(** Three axes of unit length, orthogonal to each other, the first being
    the cross product of the other two in this order. *)
Definition right_handed_orthonormal (u : array3 VECTOR3) : Prop :=
  VECTOR3_norm (at1 u) = 1 /\ VECTOR3_norm (at2 u) = 1
  /\ VECTOR3_norm (at3 u) = 1
  /\ VECTOR3_dot (at1 u) (at2 u) = 0 /\ VECTOR3_dot (at1 u) (at3 u) = 0
  /\ VECTOR3_dot (at2 u) (at3 u) = 0
  /\ VECTOR3_dot (at1 u) (VECTOR3_cross (at2 u) (at3 u)) = 1.

(** The identity matrix. *)
Definition MATRIX3_identity : MATRIX3 := mkMATRIX3 1 0 0 0 1 0 0 0 1.

(** ** Sample configurations *)

(** Modelled from the spec: the axis-angle rotation about a unit axis
    (Rodrigues' formula), one admissible meaning of [AANGLE]. *)
Definition rodrigues (v : VECTOR3) (angle : REAL) : MATRIX3 :=
  let x := vx v in
  let y := vy v in
  let z := vz v in
  let ca := cos angle in
  let sa := sin angle in
  let va := 1 - ca in
  mkMATRIX3
    (x * x * va + ca)     (x * y * va - z * sa) (x * z * va + y * sa)
    (x * y * va + z * sa) (y * y * va + ca)     (y * z * va - x * sa)
    (x * z * va - y * sa) (y * z * va + x * sa) (z * z * va + ca).

(** One admissible basis completion: a unit vector orthogonal to [v], and
    the cross product of [v] with it. *)
Definition complete_basis (v : VECTOR3) : VECTOR3 * VECTOR3 :=
  let e :=
    if decide (Rabs (vx v) < 1 / 2)
    then mkVECTOR3 1 0 0 (pose v)
    else mkVECTOR3 0 1 0 (pose v) in
  let v2 := VECTOR3_normalize (VECTOR3_cross v e) in
  (v2, VECTOR3_cross v v2).

(** Base-class methods that do nothing but hand back the state and its
    cached axes. *)
Definition sample_externals : SphericalJoint.Externals :=
  {| SphericalJoint.EPS := 1 / 1000000;
     SphericalJoint.NDEBUG := false;
     SphericalJoint.determine_orthonormal_basis := complete_basis;
     SphericalJoint.AANGLE := rodrigues;
     SphericalJoint.JOINT_update_spatial_axes := fun j => Ok j;
     SphericalJoint.JOINT_get_spatial_axes :=
       fun j => Ok (j, SphericalJoint._s j) |}.

Definition zero_velocity (p : PosePtr) : SVELOCITY :=
  mkSVELOCITY (mkSVECTOR6 0 0 0 0 0 0 p).

Definition zero_axis (p : PosePtr) : VECTOR3 := mkVECTOR3 0 0 0 p.

Definition zero_coordinates : array3 REAL := mkarray3 0 0 0.

(** A joint in frame 0, attached to poses 1 and 2, with the given axes and
    all coordinates zero. *)
Definition sample_joint (u1 u2 u3 : ORIGIN3) : SphericalJoint.t :=
  SphericalJoint.mk (Some 0%nat) (Some 1%nat) (Some 2%nat)
    (mkarray3 (VECTOR3_of u1 (Some 0%nat)) (VECTOR3_of u2 (Some 0%nat))
              (VECTOR3_of u3 (Some 0%nat)))
    zero_coordinates zero_coordinates zero_coordinates
    [zero_velocity (Some 0%nat); zero_velocity (Some 0%nat);
     zero_velocity (Some 0%nat)]
    [zero_velocity (Some 0%nat); zero_velocity (Some 0%nat);
     zero_velocity (Some 0%nat)].

Definition unit_x : ORIGIN3 := mkORIGIN3 1 0 0.
Definition unit_y : ORIGIN3 := mkORIGIN3 0 1 0.
Definition unit_z : ORIGIN3 := mkORIGIN3 0 0 1.
Definition origin_zero : ORIGIN3 := mkORIGIN3 0 0 0.

(** The joint with axes z, x, y after [update_spatial_axes]: its first
    spatial axis is z. *)
Definition sample_joint_updated : SphericalJoint.t :=
  SphericalJoint.with_s (sample_joint unit_z unit_x unit_y)
    [mkSVELOCITY (mkSVECTOR6 0 0 1 0 0 0 (Some 0%nat));
     zero_velocity (Some 0%nat); zero_velocity (Some 0%nat)].

(** The same joint before its inboard link is attached. *)
Definition sample_detached_joint : SphericalJoint.t :=
  SphericalJoint.mk (Some 0%nat) None (Some 2%nat)
    (SphericalJoint._u (sample_joint unit_z unit_x unit_y))
    zero_coordinates zero_coordinates zero_coordinates
    (SphericalJoint._s (sample_joint unit_z unit_x unit_y))
    (SphericalJoint._s_dot (sample_joint unit_z unit_x unit_y)).

(** A motion axis with all components zero and a force quantity whose
    first component is 1. *)
Definition sample_axis : SAxis.t := SAxis.mk (mkSVECTOR6 0 0 0 0 0 0 None).

Definition sample_force : SFORCE := mkSFORCE (mkSVECTOR6 1 0 0 0 0 0 None).

(** A store with one array of three written cells at location 0, a vector
    that owns it with length 2 and capacity 3, and one with length 3. *)
Definition sample_store : store :=
  {[ 0%nat := [Some 10; Some 20; Some 30] ]}.

Definition sample_vector (len cap : N) : VectorN.t :=
  VectorN.mk (Some 0%nat) len cap.

(** The same store with a second array of one unwritten cell at location
    1, and the vector that owns it. *)
Definition sample_store_two : store :=
  <[1%nat := [None]]> sample_store.

Definition sample_target : VectorN.t := VectorN.mk (Some 1%nat) 1 1.

(** A view of the first two cells of that array. *)
Definition sample_view : SharedVectorN.t :=
  SharedVectorN.mk (Some 0%nat) 0 2 1.

Close Scope R_scope.

(** * Properties *)

(** ** The store and the copy primitive *)

Lemma fresh_loc_unused (h : store) : h !! fresh_loc h = None.
Proof.
  unfold fresh_loc. apply not_elem_of_dom. apply is_fresh.
Qed.

Lemma CBLAS_copy_unit_stride (n : nat) (x y : list cell) :
  n <= length x -> n <= length y ->
  CBLAS_copy n x 1 y 1 = Some (take n x ++ drop n y).
Proof.
  induction n as [|k IH]; intros Hx Hy; simpl.
  - by rewrite drop_0.
  - rewrite IH by lia.
    rewrite Nat.mul_1_r.
    destruct (lookup_lt_is_Some_2 x k) as [c Hc]; [lia|].
    destruct (lookup_lt_is_Some_2 y k) as [d Hd]; [lia|].
    rewrite Hc.
    assert (Hlen : length (take k x ++ drop k y) = length y).
    { rewrite length_app, length_take, length_drop. lia. }
    rewrite decide_True by (rewrite Hlen; lia).
    f_equal.
    rewrite insert_app_r_alt by (rewrite length_take; lia).
    rewrite length_take, Nat.min_l by lia.
    rewrite Nat.sub_diag.
    rewrite (drop_S y d k Hd). simpl.
    rewrite (take_S_r x k c Hc).
    by rewrite <- app_assoc.
Qed.

Lemma lookup_copied_prefix (n i : nat) (x y : list cell) :
  i < n -> n <= length x -> (take n x ++ drop n y) !! i = x !! i.
Proof.
  intros Hi Hn.
  rewrite lookup_app_l by (rewrite length_take; lia).
  by apply lookup_take_lt.
Qed.

Lemma array_at_insert (h : store) (l : loc) (a : list cell) :
  array_at (<[l := a]> h) (Some l) = a.
Proof. unfold array_at. by rewrite lookup_insert_eq. Qed.

(** ** [VECTORN::resize] *)

Section Resize.

Import VectorN.

Variables (h : store) (v : t) (n : N) (preserve : bool).

Lemma resize_same_length :
  _len v = n -> resize h v n preserve = Ok (h, v).
Proof.
  intros Hn. unfold resize.
  by rewrite (proj2 (N.eqb_eq _ _) Hn).
Qed.

Lemma resize_below_capacity :
  _len v <> n -> (n < _capacity v)%N ->
  resize h v n preserve = Ok (h, mk (_data v) n (_capacity v)).
Proof.
  intros Hn Hc. unfold resize.
  rewrite (proj2 (N.eqb_neq _ _) Hn).
  by rewrite (proj2 (N.ltb_lt _ _) Hc).
Qed.

(** From the capacity on, the array is replaced by a fresh one. *)
Lemma resize_from_capacity :
  _len v <> n -> (_capacity v <= n)%N -> (_len v <= n)%N ->
  N.to_nat (_len v) <= length (buffer h v) ->
  exists a : list cell,
    resize h v n preserve
    = Ok (<[fresh_loc h := a]> h, mk (Some (fresh_loc h)) n n)
    /\ length a = N.to_nat n
    /\ (preserve = true ->
        forall i, i < N.to_nat (_len v) -> a !! i = buffer h v !! i).
Proof.
  intros Hn Hc Hl Hb. unfold resize.
  rewrite (proj2 (N.eqb_neq _ _) Hn).
  rewrite (proj2 (N.ltb_ge _ _) Hc).
  destruct preserve.
  - rewrite CBLAS_copy_unit_stride;
      [|lia|unfold new_array; rewrite length_replicate; lia].
    eexists; split; [reflexivity|]. split.
    + rewrite length_app, length_take, length_drop.
      unfold new_array. rewrite length_replicate. lia.
    + intros _ i Hi. apply lookup_copied_prefix; lia.
  - eexists; split; [reflexivity|]. split.
    + unfold new_array. by rewrite length_replicate.
    + discriminate.
Qed.

End Resize.

(** C3, at the input where it fails: a vector of length 2 and capacity 3 is
    resized to 3, which does not exceed its capacity; all the same [resize]
    replaces the array at location 0 by a new array at location 1, whether
    or not the elements are preserved. *)
Theorem resize_to_capacity_reallocates :
  VectorN.resize sample_store (sample_vector 2 3) 3 false
  = Ok (<[1%nat := [None; None; None]]> sample_store,
        VectorN.mk (Some 1%nat) 3 3)
  /\ VectorN.resize sample_store (sample_vector 2 3) 3 true
     = Ok (<[1%nat := [Some 10%R; Some 20%R; None]]> sample_store,
           VectorN.mk (Some 1%nat) 3 3).
Proof. split; vm_compute; reflexivity. Qed.

(** C6: after [resize(n, true)] every element below both the old length and
    [n] is an element of the array and has the value it had before. *)
Theorem resize_preserve_keeps_elements
    (h : store) (v : VectorN.t) (n : N) :
  (VectorN._len v <= VectorN._capacity v)%N ->
  N.to_nat (VectorN._len v) <= length (VectorN.buffer h v) ->
  exists (h' : store) (v' : VectorN.t),
    VectorN.resize h v n true = Ok (h', v')
    /\ VectorN._len v' = n
    /\ forall i : N, (i < N.min (VectorN._len v) n)%N ->
         is_Some (VectorN.element h v (N.to_nat i))
         /\ VectorN.element h' v' (N.to_nat i)
            = VectorN.element h v (N.to_nat i).
Proof.
  intros Hcap Hb.
  assert (Hsome : forall i : N, (i < N.min (VectorN._len v) n)%N ->
            is_Some (VectorN.element h v (N.to_nat i))).
  { intros i Hi. apply lookup_lt_is_Some_2. lia. }
  destruct (N.eq_dec (VectorN._len v) n) as [Heq|Hne].
  - exists h, v. rewrite resize_same_length by done. by auto.
  - destruct (N.lt_ge_cases n (VectorN._capacity v)) as [Hlt|Hge].
    + eexists h, _. rewrite resize_below_capacity by done.
      split; [reflexivity|]. split; [reflexivity|].
      intros i Hi. split; [by apply Hsome|reflexivity].
    + assert (Hle : (VectorN._len v <= n)%N) by lia.
      destruct (resize_from_capacity h v n true Hne Hge Hle Hb)
        as (a & -> & _ & Ha).
      eexists _, _. split; [reflexivity|]. split; [reflexivity|].
      intros i Hi. split; [by apply Hsome|].
      unfold VectorN.element, VectorN.buffer. simpl VectorN._data.
      rewrite array_at_insert. apply Ha; [done|lia].
Qed.

Lemma resize_preserve_keeps_elements_witness :
  (2 <= 3)%N
  /\ N.to_nat 2 <= length (VectorN.buffer sample_store (sample_vector 2 3))
  /\ exists (h' : store) (v' : VectorN.t),
       VectorN.resize sample_store (sample_vector 2 3) 5 true = Ok (h', v')
       /\ VectorN._len v' = 5%N
       /\ forall i : N, (i < N.min 2 5)%N ->
            is_Some (VectorN.element sample_store (sample_vector 2 3) (N.to_nat i))
            /\ VectorN.element h' v' (N.to_nat i)
               = VectorN.element sample_store (sample_vector 2 3) (N.to_nat i).
Proof.
  assert (H1 : (2 <= 3)%N) by lia.
  assert (H2 : N.to_nat 2
               <= length (VectorN.buffer sample_store (sample_vector 2 3)))
    by (vm_compute; lia).
  split; [exact H1|]. split; [exact H2|].
  exact (resize_preserve_keeps_elements sample_store (sample_vector 2 3) 5 H1 H2).
Defined.

(** ** [VECTORN::compress] *)

Lemma compress_at_capacity (h : store) (v : VectorN.t) :
  VectorN._len v = VectorN._capacity v -> VectorN.compress h v = Ok (h, v).
Proof.
  intros Heq. unfold VectorN.compress.
  by rewrite (proj2 (N.eqb_eq _ _) Heq).
Qed.

(** C10: [compress] makes the capacity equal to the length, keeps the
    length and every element below it, changes nothing when the capacity
    already equals the length, and changes nothing when called again. *)
Theorem compress_fits_capacity
    (h : store) (v : VectorN.t) :
  N.to_nat (VectorN._len v) <= length (VectorN.buffer h v) ->
  exists (h' : store) (v' : VectorN.t),
    VectorN.compress h v = Ok (h', v')
    /\ VectorN._capacity v' = VectorN._len v'
    /\ VectorN._len v' = VectorN._len v
    /\ (forall i : N, (i < VectorN._len v)%N ->
          is_Some (VectorN.element h v (N.to_nat i))
          /\ VectorN.element h' v' (N.to_nat i)
             = VectorN.element h v (N.to_nat i))
    /\ (VectorN._capacity v = VectorN._len v -> h' = h /\ v' = v)
    /\ VectorN.compress h' v' = Ok (h', v').
Proof.
  intros Hb.
  assert (Hsome : forall i : N, (i < VectorN._len v)%N ->
            is_Some (VectorN.element h v (N.to_nat i))).
  { intros i Hi. apply lookup_lt_is_Some_2. lia. }
  destruct (N.eq_dec (VectorN._len v) (VectorN._capacity v)) as [Heq|Hne].
  - exists h, v. rewrite compress_at_capacity by done.
    split; [reflexivity|]. split; [by symmetry|]. split; [reflexivity|].
    split; [|split; [by auto|reflexivity]].
    intros i Hi. split; [by apply Hsome|reflexivity].
  - unfold VectorN.compress at 1.
    rewrite (proj2 (N.eqb_neq _ _) Hne).
    rewrite CBLAS_copy_unit_stride;
      [|lia|unfold new_array; rewrite length_replicate; lia].
    eexists _, _. split; [reflexivity|].
    split; [reflexivity|]. split; [reflexivity|]. split; [|split].
    + intros i Hi. split; [by apply Hsome|].
      unfold VectorN.element, VectorN.buffer at 1. simpl VectorN._data.
      rewrite array_at_insert. apply lookup_copied_prefix; lia.
    + intros Hc. by destruct Hne.
    + by apply compress_at_capacity.
Qed.

Lemma compress_fits_capacity_witness :
  N.to_nat 2 <= length (VectorN.buffer sample_store (sample_vector 2 3))
  /\ exists (h' : store) (v' : VectorN.t),
       VectorN.compress sample_store (sample_vector 2 3) = Ok (h', v')
       /\ VectorN._capacity v' = VectorN._len v'
       /\ VectorN._len v' = 2%N
       /\ (forall i : N, (i < 2)%N ->
             is_Some (VectorN.element sample_store (sample_vector 2 3) (N.to_nat i))
             /\ VectorN.element h' v' (N.to_nat i)
                = VectorN.element sample_store (sample_vector 2 3) (N.to_nat i))
       /\ (3%N = 2%N -> h' = sample_store /\ v' = sample_vector 2 3)
       /\ VectorN.compress h' v' = Ok (h', v').
Proof.
  assert (H : N.to_nat 2
              <= length (VectorN.buffer sample_store (sample_vector 2 3)))
    by (vm_compute; lia).
  split; [exact H|].
  exact (compress_fits_capacity sample_store (sample_vector 2 3) H).
Defined.

(** ** [unsigned] arithmetic without wrap-around *)

Lemma uadd_small (a b : N) : (a + b < UINT_MOD)%N -> uadd a b = (a + b)%N.
Proof. intros H. unfold uadd. by apply N.mod_small. Qed.

Lemma usub_small (a b : N) :
  (b <= a)%N -> (a < UINT_MOD)%N -> usub a b = (a - b)%N.
Proof.
  intros Hba Ha. unfold usub.
  rewrite (N.mod_small b) by lia.
  symmetry. apply (N.mod_unique _ _ 1); lia.
Qed.

(** ** Indexed access to a view *)

Lemma operator_index_below_length
    (NEXCEPT : bool) (h : store) (x : SharedVectorN.t) (i : N) (c : cell) :
  (i <= SharedVectorN._len x)%N ->
  array_at h (SharedVectorN._data x)
    !! N.to_nat (uadd i (SharedVectorN._start x)) = Some c ->
  SharedVectorN.operator_index NEXCEPT h x i = Ok c.
Proof.
  intros Hi Hc. unfold SharedVectorN.operator_index.
  rewrite (proj2 (N.ltb_ge _ _) Hi), andb_false_r.
  by rewrite Hc.
Qed.

Lemma operator_index_beyond_length
    (h : store) (x : SharedVectorN.t) (i : N) :
  (SharedVectorN._len x < i)%N ->
  SharedVectorN.operator_index false h x i = Throw InvalidIndexException.
Proof.
  intros Hi. unfold SharedVectorN.operator_index.
  by rewrite (proj2 (N.ltb_lt _ _) Hi).
Qed.

(** At the index equal to the length a checked build does not throw. *)
Lemma operator_index_at_length_no_throw
    (h : store) (x : SharedVectorN.t) (e : exn) :
  SharedVectorN.operator_index false h x (SharedVectorN._len x) <> Throw e.
Proof.
  unfold SharedVectorN.operator_index.
  rewrite N.ltb_irrefl. simpl.
  by destruct (array_at _ _ !! _).
Qed.

(** C2, at the input where it fails: a view of length 2 over the cells 10,
    20, 30 is read at index 2. The index is out of bounds, but the checked
    build returns the cell after the view instead of throwing; the sibling
    accessor [data(i)] does throw there. *)
Theorem operator_index_at_length_reads_past_view :
  SharedVectorN.operator_index false sample_store sample_view 2
  = Ok (Some 30%R)
  /\ SharedVectorN.data_at false sample_view 2 = Throw InvalidIndexException.
Proof. split; vm_compute; reflexivity. Qed.

(** ** [VECTORN::segment] *)

Lemma segment_in_range (NEXCEPT : bool) (v : VectorN.t) (s e : N) :
  (s <= e)%N -> (e <= VectorN._len v)%N -> (VectorN._len v < UINT_MOD)%N ->
  VectorN.segment NEXCEPT v s e
  = Ok (SharedVectorN.mk (VectorN._data v) s (e - s) 1).
Proof.
  intros Hse He Hl. unfold VectorN.segment.
  rewrite (proj2 (N.ltb_ge _ _) Hse), (proj2 (N.ltb_ge _ _) He).
  rewrite andb_false_r.
  by rewrite usub_small by lia.
Qed.

Lemma segment_out_of_range (v : VectorN.t) (s e : N) :
  (e < s)%N \/ (VectorN._len v < e)%N ->
  VectorN.segment false v s e = Throw InvalidIndexException.
Proof.
  intros H. unfold VectorN.segment.
  destruct H as [H|H]; rewrite (proj2 (N.ltb_lt _ _) H); simpl;
    [reflexivity|by rewrite orb_true_r].
Qed.

(** C5: for [start <= end <= length], [segment] returns a view of length
    [end - start] whose element [i] is element [start + i] of the vector,
    and a write through the view at [i] is a write to element [start + i]
    of the vector and to nothing else; for [start > end] or [end > length]
    a checked build throws the index error. *)
Theorem segment_shares_storage
    (NEXCEPT : bool) (h : store) (v : VectorN.t) (s e : N) :
  ((s <= e)%N -> (e <= VectorN._len v)%N ->
   (VectorN._len v < UINT_MOD)%N ->
   N.to_nat (VectorN._len v) <= length (VectorN.buffer h v) ->
   exists x : SharedVectorN.t,
     VectorN.segment NEXCEPT v s e = Ok x
     /\ SharedVectorN._len x = (e - s)%N
     /\ SharedVectorN._data x = VectorN._data v
     /\ forall i : N, (i < e - s)%N ->
          (exists c : cell,
             SharedVectorN.operator_index NEXCEPT h x i = Ok c
             /\ VectorN.element h v (N.to_nat (s + i)) = Some c)
          /\ forall r : REAL, exists h' : store,
               SharedVectorN.assign_index NEXCEPT h x i r = Ok h'
               /\ VectorN.element h' v (N.to_nat (s + i)) = Some (Some r)
               /\ SharedVectorN.operator_index NEXCEPT h' x i = Ok (Some r)
               /\ forall k : nat, k <> N.to_nat (s + i) ->
                    VectorN.element h' v k = VectorN.element h v k)
  /\ ((e < s)%N \/ (VectorN._len v < e)%N ->
      VectorN.segment false v s e = Throw InvalidIndexException).
Proof.
  split; [|apply segment_out_of_range].
  intros Hse He Hl Hb.
  eexists. split; [by apply segment_in_range|].
  split; [reflexivity|]. split; [reflexivity|].
  intros i Hi.
  assert (Hadd : uadd i s = (s + i)%N) by (rewrite uadd_small; lia).
  assert (Hk : N.to_nat (s + i) < length (VectorN.buffer h v)) by lia.
  destruct (lookup_lt_is_Some_2 _ _ Hk) as [c Hc].
  split.
  - exists c. split; [|exact Hc].
    apply operator_index_below_length; simpl; [lia|].
    by rewrite Hadd.
  - intros r. unfold SharedVectorN.assign_index. simpl.
    rewrite (proj2 (N.ltb_ge (e - s) i)) by lia.
    rewrite andb_false_r, Hadd.
    unfold VectorN.element, VectorN.buffer in *.
    destruct (VectorN._data v) as [l|] eqn:Hd; [|simpl in Hk; lia].
    rewrite decide_True by exact Hk.
    eexists. split; [reflexivity|].
    rewrite array_at_insert.
    split; [by apply list_lookup_insert_eq|].
    split.
    + apply operator_index_below_length; simpl; [lia|].
      rewrite Hadd, lookup_insert_eq. simpl.
      by apply list_lookup_insert_eq.
    + intros k Hne. by apply list_lookup_insert_ne.
Qed.

Lemma segment_shares_storage_witness :
  (1 <= 3)%N /\ (3 <= VectorN._len (sample_vector 3 3))%N
  /\ (VectorN._len (sample_vector 3 3) < UINT_MOD)%N
  /\ N.to_nat (VectorN._len (sample_vector 3 3))
     <= length (VectorN.buffer sample_store (sample_vector 3 3))
  /\ exists x : SharedVectorN.t,
       VectorN.segment false (sample_vector 3 3) 1 3 = Ok x
       /\ SharedVectorN._len x = (3 - 1)%N
       /\ SharedVectorN._data x = VectorN._data (sample_vector 3 3)
       /\ forall i : N, (i < 3 - 1)%N ->
            (exists c : cell,
               SharedVectorN.operator_index false sample_store x i = Ok c
               /\ VectorN.element sample_store (sample_vector 3 3)
                    (N.to_nat (1 + i)) = Some c)
            /\ forall r : REAL, exists h' : store,
                 SharedVectorN.assign_index false sample_store x i r = Ok h'
                 /\ VectorN.element h' (sample_vector 3 3) (N.to_nat (1 + i))
                    = Some (Some r)
                 /\ SharedVectorN.operator_index false h' x i = Ok (Some r)
                 /\ forall k : nat, k <> N.to_nat (1 + i) ->
                      VectorN.element h' (sample_vector 3 3) k
                      = VectorN.element sample_store (sample_vector 3 3) k.
Proof.
  assert (H1 : (1 <= 3)%N) by lia.
  assert (H2 : (3 <= VectorN._len (sample_vector 3 3))%N) by (simpl; lia).
  assert (H3 : (VectorN._len (sample_vector 3 3) < UINT_MOD)%N)
    by (vm_compute; reflexivity).
  assert (H4 : N.to_nat (VectorN._len (sample_vector 3 3))
               <= length (VectorN.buffer sample_store (sample_vector 3 3)))
    by (vm_compute; lia).
  split; [exact H1|]. split; [exact H2|]. split; [exact H3|].
  split; [exact H4|].
  exact (proj1 (segment_shares_storage false sample_store (sample_vector 3 3)
                  1 3) H1 H2 H3 H4).
Defined.

(** ** The dot product of a motion axis and a force *)

Open Scope R_scope.

(** [SAXIS::dot] returns the sum of the twelve components. *)
Lemma SAXIS_dot_sums_components (a : SAxis.t) (f : SFORCE) :
  SAxis.dot a f
  = (d0 (SAxis.vec a) + d1 (SAxis.vec a) + d2 (SAxis.vec a)
     + d3 (SAxis.vec a) + d4 (SAxis.vec a) + d5 (SAxis.vec a))
    + (d0 (force_vec f) + d1 (force_vec f) + d2 (force_vec f)
       + d3 (force_vec f) + d4 (force_vec f) + d5 (force_vec f)).
Proof. unfold SAxis.dot, SAxis.dot_data. lra. Qed.

(** C1, at the input where it fails: the zero motion axis paired with a
    force whose first component is 1. The pairing of the claim is 0; the
    code, which adds where the pairing multiplies, returns 1. *)
Theorem SAXIS_dot_of_zero_axis :
  SAxis.dot sample_axis sample_force = 1
  /\ screw_pairing (SAxis.vec sample_axis) (force_vec sample_force) = 0
  /\ SAxis.dot sample_axis sample_force
     <> screw_pairing (SAxis.vec sample_axis) (force_vec sample_force).
Proof.
  unfold SAxis.dot, SAxis.dot_data, screw_pairing. simpl.
  repeat split; lra.
Qed.

(** ** [SPHERICALJOINT::get_axis] *)

(** Unfolds the records and the operations on 3-vectors, and nothing of the
    real numbers. *)
Ltac unfold_geometry :=
  cbv beta iota zeta delta
    [SVELOCITY_get_angular SVELOCITY_get_linear SVELOCITY_set_angular
     SVELOCITY_set_linear velocity_vec get_angular get_linear set_angular
     set_linear d0 d1 d2 d3 d4 d5 spose
     VECTOR3_of ORIGIN3_of ORIGIN3_cross ORIGIN3_plus VECTOR3_cross
     VECTOR3_scale VECTOR3_norm VECTOR3_normalize VECTOR3_dot
     MATRIX3_mult_origin MATRIX3_mult rodrigues
     vx vy vz pose ox oy oz xx xy xz yx yy yz zx zy zz
     unit_x unit_y unit_z origin_zero zero_velocity zero_axis
     zero_coordinates at1 at2 at3 get3 set3].

Lemma MATRIX3_mult_origin_zero (m : MATRIX3) :
  MATRIX3_mult_origin m origin_zero = origin_zero.
Proof. unfold MATRIX3_mult_origin, origin_zero. simpl. f_equal; lra. Qed.

(** C9: [get_axis] returns for axis 2 the vector (0, cos, sin) of
    [q1 + tare1] and for axis 3 the vector (sin2, -cos2 sin1, cos1 cos2),
    both with the pose of axis 1, whatever the stored axes 2 and 3 are;
    [get_spatial_axes] rotates the stored axes instead, and the two differ
    on the joint with axes z, x, y at coordinates zero. *)
Theorem get_axis_ignores_stored_axes (j : SphericalJoint.t) :
  let a1 := at1 (SphericalJoint.q j) + at1 (SphericalJoint._q_tare j) in
  let a2 := at2 (SphericalJoint.q j) + at2 (SphericalJoint._q_tare j) in
  let p := pose (at1 (SphericalJoint._u j)) in
  SphericalJoint.get_axis j eAxis2 = mkVECTOR3 0 (cos a1) (sin a1) p
  /\ SphericalJoint.get_axis j eAxis3
     = mkVECTOR3 (sin a2) (- cos a2 * sin a1) (cos a1 * cos a2) p
  /\ (forall (v2 v3 : VECTOR3) (a : Axis),
        SphericalJoint.get_axis
          (SphericalJoint.with_u j (mkarray3 (at1 (SphericalJoint._u j)) v2 v3))
          a
        = SphericalJoint.get_axis j a)
  /\ exists (j' : SphericalJoint.t) (s1 s2 s3 : SVELOCITY),
       @SphericalJoint.get_spatial_axes sample_externals
         (sample_joint unit_z unit_x unit_y) = Ok (j', [s1; s2; s3])
       /\ SVELOCITY_get_angular s2 = unit_x
       /\ ORIGIN3_of
            (SphericalJoint.get_axis (sample_joint unit_z unit_x unit_y) eAxis2)
          = unit_y.
Proof.
  intros a1 a2 p.
  split; [reflexivity|]. split; [reflexivity|]. split.
  - intros v2 v3 a. by destruct a.
  - eexists _, _, _, _. split; [reflexivity|]. split.
    + simpl. unfold_geometry.
      replace (0 + 0) with 0 by lra. rewrite cos_0, sin_0. f_equal; lra.
    + unfold SphericalJoint.get_axis. simpl. unfold_geometry.
      replace (0 + 0) with 0 by lra. by rewrite cos_0, sin_0.
Qed.

(** ** [SPHERICALJOINT::assign_axes] *)

Section AssignAxes.

Context {ext : SphericalJoint.Externals}.

Import SphericalJoint.

Lemma unset_true (j : t) (a : Axis) :
  VECTOR3_norm (get3 (_u j) a) < EPS -> unset j a = true.
Proof. intros H. unfold unset. by apply bool_decide_eq_true_2. Qed.

Lemma unset_false (j : t) (a : Axis) :
  EPS <= VECTOR3_norm (get3 (_u j) a) -> unset j a = false.
Proof.
  intros H. unfold unset. apply bool_decide_eq_false_2. lra.
Qed.

(** For the axes the joint is given, each the zero vector or of unit
    length, and a tolerance in (0, 1], the test tells the zero ones from
    the others. *)
Lemma zero_axis_is_unset (j : t) (a : Axis) :
  0 < EPS ->
  vx (get3 (_u j) a) = 0 -> vy (get3 (_u j) a) = 0 -> vz (get3 (_u j) a) = 0 ->
  unset j a = true.
Proof.
  intros Heps Hx Hy Hz. apply unset_true.
  unfold VECTOR3_norm. rewrite Hx, Hy, Hz.
  replace (0 * 0 + 0 * 0 + 0 * 0) with 0 by lra.
  by rewrite sqrt_0.
Qed.

Lemma unit_axis_is_set (j : t) (a : Axis) :
  EPS <= 1 -> VECTOR3_norm (get3 (_u j) a) = 1 -> unset j a = false.
Proof. intros Heps Hn. apply unset_false. by rewrite Hn. Qed.

End AssignAxes.

(** C7: when exactly two axes are set ([EPS <= norm]) and the third is not
    ([norm < EPS]), [assign_axes] returns true, normalises the two and sets
    the third to their cross product in cyclic order; when none is set it
    returns false and changes nothing. *)
Theorem assign_axes_completes_pair
    (ext : SphericalJoint.Externals) (j : SphericalJoint.t) :
  let u1 := at1 (SphericalJoint._u j) in
  let u2 := at2 (SphericalJoint._u j) in
  let u3 := at3 (SphericalJoint._u j) in
  let n := VECTOR3_normalize in
  let EPS := SphericalJoint.EPS in
  (EPS <= VECTOR3_norm u1 -> EPS <= VECTOR3_norm u2 -> VECTOR3_norm u3 < EPS ->
   SphericalJoint.assign_axes j
   = (true, SphericalJoint.with_u j
              (mkarray3 (n u1) (n u2) (VECTOR3_cross (n u1) (n u2)))))
  /\ (VECTOR3_norm u1 < EPS -> EPS <= VECTOR3_norm u2 -> EPS <= VECTOR3_norm u3 ->
      SphericalJoint.assign_axes j
      = (true, SphericalJoint.with_u j
                 (mkarray3 (VECTOR3_cross (n u2) (n u3)) (n u2) (n u3))))
  /\ (EPS <= VECTOR3_norm u1 -> VECTOR3_norm u2 < EPS -> EPS <= VECTOR3_norm u3 ->
      SphericalJoint.assign_axes j
      = (true, SphericalJoint.with_u j
                 (mkarray3 (n u1) (VECTOR3_cross (n u3) (n u1)) (n u3))))
  /\ (VECTOR3_norm u1 < EPS -> VECTOR3_norm u2 < EPS -> VECTOR3_norm u3 < EPS ->
      SphericalJoint.assign_axes j = (false, j)).
Proof.
  intros u1 u2 u3 n EPS.
  repeat apply conj; intros H1 H2 H3; unfold SphericalJoint.assign_axes.
  - rewrite (unset_false j eAxis1), (unset_false j eAxis2),
      (unset_true j eAxis3); done.
  - rewrite (unset_true j eAxis1), (unset_false j eAxis2),
      (unset_false j eAxis3); done.
  - rewrite (unset_false j eAxis1), (unset_true j eAxis2),
      (unset_false j eAxis3); done.
  - rewrite (unset_true j eAxis1), (unset_true j eAxis2),
      (unset_true j eAxis3); done.
Qed.

Lemma norm_unit_x (p : PosePtr) : VECTOR3_norm (VECTOR3_of unit_x p) = 1.
Proof.
  unfold_geometry.
  replace (1 * 1 + 0 * 0 + 0 * 0) with 1 by lra. apply sqrt_1.
Qed.

Lemma norm_unit_y (p : PosePtr) : VECTOR3_norm (VECTOR3_of unit_y p) = 1.
Proof.
  unfold_geometry.
  replace (0 * 0 + 1 * 1 + 0 * 0) with 1 by lra. apply sqrt_1.
Qed.

Lemma norm_unit_z (p : PosePtr) : VECTOR3_norm (VECTOR3_of unit_z p) = 1.
Proof.
  unfold_geometry.
  replace (0 * 0 + 0 * 0 + 1 * 1) with 1 by lra. apply sqrt_1.
Qed.

Lemma norm_origin_zero (p : PosePtr) :
  VECTOR3_norm (VECTOR3_of origin_zero p) = 0.
Proof.
  unfold_geometry.
  replace (0 * 0 + 0 * 0 + 0 * 0) with 0 by lra. apply sqrt_0.
Qed.

Lemma assign_axes_completes_pair_witness :
  let j := sample_joint unit_x unit_y origin_zero in
  let n := VECTOR3_normalize in
  let u1 := at1 (SphericalJoint._u j) in
  let u2 := at2 (SphericalJoint._u j) in
  @SphericalJoint.assign_axes sample_externals j
  = (true, SphericalJoint.with_u j
             (mkarray3 (n u1) (n u2) (VECTOR3_cross (n u1) (n u2)))).
Proof.
  apply (proj1 (assign_axes_completes_pair sample_externals
                  (sample_joint unit_x unit_y origin_zero))); simpl.
  - rewrite norm_unit_x. lra.
  - rewrite norm_unit_y. lra.
  - rewrite norm_origin_zero. lra.
Defined.

(** ** The spatial-axis queries and the poses *)

Lemma vector_modify_outcome {A : Type} (v : list A) (i : nat) (f : A -> A) :
  (exists a, v !! i = Some a /\ vector_modify v i f = Ok (<[i := f a]> v))
  \/ ((length v <= i)%nat /\ vector_modify v i f = Undefined).
Proof.
  unfold vector_modify. destruct (v !! i) as [a|] eqn:Hv.
  - left. by exists a.
  - right. split; [by apply lookup_ge_None|done].
Qed.

Lemma vector_modify_length {A : Type} (v w : list A) (i : nat) (f : A -> A) :
  vector_modify v i f = Ok w -> length w = length v.
Proof.
  unfold vector_modify. destruct (v !! i); [|discriminate].
  intros [= <-]. apply length_insert.
Qed.

Lemma vector_modify_no_throw {A : Type} (v : list A) (i : nat) (f : A -> A)
    (e : exn) :
  vector_modify v i f <> Throw e.
Proof. unfold vector_modify. by destruct (v !! i). Qed.

(** C8: with a null inboard or outboard pose both queries throw a runtime
    error and so return no axes; with both poses attached
    [get_spatial_axes_dot] throws nothing, and [get_spatial_axes] throws
    only what the base-class method it ends with throws. *)
Theorem spatial_axes_need_both_poses
    (ext : SphericalJoint.Externals) (j : SphericalJoint.t) :
  (SphericalJoint.inboard_pose j = None \/ SphericalJoint.outboard_pose j = None ->
   (exists what : string,
      SphericalJoint.get_spatial_axes j = Throw (runtime_error what))
   /\ (exists what : string,
         SphericalJoint.get_spatial_axes_dot j = Throw (runtime_error what)))
  /\ (SphericalJoint.inboard_pose j <> None ->
      SphericalJoint.outboard_pose j <> None ->
      (forall e : exn, SphericalJoint.get_spatial_axes_dot j <> Throw e)
      /\ (forall e : exn,
            SphericalJoint.get_spatial_axes j = Throw e ->
            exists j' : SphericalJoint.t,
              SphericalJoint.JOINT_get_spatial_axes j' = Throw e)).
Proof.
  split.
  - unfold SphericalJoint.get_spatial_axes, SphericalJoint.get_spatial_axes_dot.
    intros [H|H].
    + rewrite H. split; eexists; reflexivity.
    + rewrite H. destruct (SphericalJoint.inboard_pose j);
        split; eexists; reflexivity.
  - intros Hi Ho.
    unfold SphericalJoint.get_spatial_axes, SphericalJoint.get_spatial_axes_dot.
    destruct (SphericalJoint.inboard_pose j) as [pi|]; [|done].
    destruct (SphericalJoint.outboard_pose j) as [po|]; [|done].
    split; intros e.
    + repeat
        match goal with
        | |- context [vector_modify ?v ?i ?f] =>
            destruct (vector_modify_outcome v i f) as [(? & _ & ->)|[_ ->]];
            simpl
        end; done.
    + repeat
        match goal with
        | |- context [vector_modify ?v ?i ?f] =>
            destruct (vector_modify_outcome v i f) as [(? & _ & ->)|[_ ->]];
            simpl
        end; try done.
      intros H. eexists. exact H.
Qed.

Lemma spatial_axes_need_both_poses_witness :
  (exists what : string,
     @SphericalJoint.get_spatial_axes sample_externals sample_detached_joint
     = Throw (runtime_error what))
  /\ (exists what : string,
        @SphericalJoint.get_spatial_axes_dot sample_externals
          sample_detached_joint
        = Throw (runtime_error what)).
Proof.
  apply (proj1 (spatial_axes_need_both_poses sample_externals
                  sample_detached_joint)).
  left. reflexivity.
Defined.

(** ** [SPHERICALJOINT::get_spatial_axes_dot] *)

(** Applying a product of two matrices is applying one after the other. *)
Lemma MATRIX3_mult_origin_assoc (a b : MATRIX3) (o : ORIGIN3) :
  MATRIX3_mult_origin (MATRIX3_mult a b) o
  = MATRIX3_mult_origin a (MATRIX3_mult_origin b o).
Proof.
  destruct a, b, o. unfold MATRIX3_mult_origin, MATRIX3_mult. simpl.
  f_equal; ring.
Qed.

(** [update_spatial_axes], when it assigns the axes, leaves a zero first
    entry in the derivatives and touches neither the poses nor the other
    entries' number. *)
Lemma update_spatial_axes_zeroes_first_derivative
    (ext : SphericalJoint.Externals) (j0 j1 : SphericalJoint.t) :
  (exists j' : SphericalJoint.t,
     SphericalJoint.JOINT_update_spatial_axes j0 = Ok j'
     /\ fst (SphericalJoint.assign_axes j') = true) ->
  SphericalJoint.update_spatial_axes j0 = Ok j1 ->
  exists d : SVELOCITY,
    SphericalJoint._s_dot j1 !! DOF_1 = Some d
    /\ SVELOCITY_get_angular d = origin_zero
    /\ SVELOCITY_get_linear d = origin_zero.
Proof.
  intros (j' & Hj' & Hassigned).
  unfold SphericalJoint.update_spatial_axes. rewrite Hj'. simpl.
  destruct (SphericalJoint.assign_axes j') as [b j2]. simpl in Hassigned.
  subst b. simpl.
  destruct (vector_modify_outcome (SphericalJoint._s j2) DOF_1
              (fun a => SVELOCITY_set_angular a (at1 (SphericalJoint._u j2))))
    as [(s1 & _ & ->)|[_ ->]]; simpl; [|intros; discriminate].
  match goal with
  | |- context [vector_modify ?v ?i ?f] =>
      destruct (vector_modify_outcome v i f) as [(s2 & _ & ->)|[_ ->]];
      simpl; [|intros; discriminate]
  end.
  destruct (vector_modify_outcome (SphericalJoint._s_dot j2) DOF_1
              (fun a => SVELOCITY_set_angular a
                          (mkVECTOR3 0 0 0 (SphericalJoint.get_pose j2))))
    as [(sd1 & Hsd1 & ->)|[_ ->]]; simpl; [|intros; discriminate].
  match goal with
  | |- context [vector_modify ?v ?i ?f] =>
      destruct (vector_modify_outcome v i f) as [(sd2 & Hsd2 & ->)|[_ ->]];
      simpl; [|intros; discriminate]
  end.
  destruct (_ || _); [|discriminate].
  intros [= <-]. simpl.
  assert (Hlt : (DOF_1 < length (SphericalJoint._s_dot j2))%nat)
    by (by eapply lookup_lt_Some).
  rewrite list_lookup_insert_eq in Hsd2 by exact Hlt.
  injection Hsd2 as <-.
  eexists. split.
  - apply list_lookup_insert_eq. by rewrite length_insert.
  - by split.
Qed.

(** [get_spatial_axes_dot] writes the second and third derivative only:
    the first one stays what [update_spatial_axes] made it, over any number
    of queries. *)
Lemma get_spatial_axes_dot_keeps_first_derivative
    (ext : SphericalJoint.Externals) (j j' : SphericalJoint.t)
    (sd : list SVELOCITY) :
  SphericalJoint.get_spatial_axes_dot j = Ok (j', sd) ->
  SphericalJoint._s_dot j' = sd
  /\ sd !! DOF_1 = SphericalJoint._s_dot j !! DOF_1.
Proof.
  unfold SphericalJoint.get_spatial_axes_dot.
  destruct (SphericalJoint.inboard_pose j); [|discriminate].
  destruct (SphericalJoint.outboard_pose j); [|discriminate].
  repeat
    match goal with
    | |- context [vector_modify ?v ?i ?f] =>
        destruct (vector_modify_outcome v i f) as [(? & _ & ->)|[_ ->]];
        simpl; [|intros; discriminate]
    end.
  intros [= <- <-]. split; [reflexivity|].
  by rewrite !list_lookup_insert_ne by discriminate.
Qed.

(** C4: once [update_spatial_axes] has assigned the axes, and whatever the
    coordinates are set to afterwards, [get_spatial_axes_dot] returns three
    derivatives: the first is zero; the angular part of the second is
    omega1 x (R1 u2); the angular part of the third is
    omega1 x (R1 (R2 u3)) + R1 (omega2 x (R2 u3)); all linear parts are
    zero. Here omega1 = u1 qd1, omega2 = u2 qd2, and R1, R2 are the
    axis-angle rotations about u1 by q1 + tare1 and about u2 by
    q2 + tare2. *)
Theorem get_spatial_axes_dot_formulas
    (ext : SphericalJoint.Externals) (j0 j1 : SphericalJoint.t)
    (qv tare qdv : array3 REAL) :
  (exists j' : SphericalJoint.t,
     SphericalJoint.JOINT_update_spatial_axes j0 = Ok j'
     /\ fst (SphericalJoint.assign_axes j') = true) ->
  SphericalJoint.update_spatial_axes j0 = Ok j1 ->
  SphericalJoint.inboard_pose j1 <> None ->
  SphericalJoint.outboard_pose j1 <> None ->
  length (SphericalJoint._s_dot j1) = 3%nat ->
  let j := SphericalJoint.with_coordinates j1 qv tare qdv in
  let u1 := at1 (SphericalJoint._u j1) in
  let u2 := at2 (SphericalJoint._u j1) in
  let u3 := ORIGIN3_of (at3 (SphericalJoint._u j1)) in
  let R1 := SphericalJoint.AANGLE u1 (at1 qv + at1 tare) in
  let R2 := SphericalJoint.AANGLE u2 (at2 qv + at2 tare) in
  let omega1 := ORIGIN3_of (VECTOR3_scale u1 (at1 qdv)) in
  let omega2 := ORIGIN3_of (VECTOR3_scale u2 (at2 qdv)) in
  exists (j' : SphericalJoint.t) (sd1 sd2 sd3 : SVELOCITY),
    SphericalJoint.get_spatial_axes_dot j = Ok (j', [sd1; sd2; sd3])
    /\ SphericalJoint._s_dot j' = [sd1; sd2; sd3]
    /\ SVELOCITY_get_angular sd1 = origin_zero
    /\ SVELOCITY_get_linear sd1 = origin_zero
    /\ SVELOCITY_get_angular sd2
       = ORIGIN3_cross omega1 (MATRIX3_mult_origin R1 (ORIGIN3_of u2))
    /\ SVELOCITY_get_linear sd2 = origin_zero
    /\ SVELOCITY_get_angular sd3
       = ORIGIN3_plus
           (ORIGIN3_cross omega1
              (MATRIX3_mult_origin R1 (MATRIX3_mult_origin R2 u3)))
           (MATRIX3_mult_origin R1
              (ORIGIN3_cross omega2 (MATRIX3_mult_origin R2 u3)))
    /\ SVELOCITY_get_linear sd3 = origin_zero.
Proof.
  intros Hassigned Hupdate Hin Hout Hlen j u1 u2 u3 R1 R2 omega1 omega2.
  destruct (update_spatial_axes_zeroes_first_derivative ext j0 j1
              Hassigned Hupdate) as (d & Hd & Hda & Hdl).
  unfold SphericalJoint.get_spatial_axes_dot.
  simpl SphericalJoint.inboard_pose. simpl SphericalJoint.outboard_pose.
  destruct (SphericalJoint.inboard_pose j1) as [pi|]; [|done].
  destruct (SphericalJoint.outboard_pose j1) as [po|]; [|done].
  simpl SphericalJoint._s_dot.
  destruct (SphericalJoint._s_dot j1) as [|e1 [|e2 [|e3 [|e4 l]]]];
    try discriminate Hlen.
  injection Hd as ->.
  eexists _, _, _, _. split; [reflexivity|].
  split; [reflexivity|]. split; [exact Hda|]. split; [exact Hdl|].
  split; [reflexivity|]. split; [reflexivity|]. split; [|reflexivity].
  unfold SVELOCITY_get_angular, SVELOCITY_set_linear, SVELOCITY_set_angular.
  simpl. rewrite MATRIX3_mult_origin_assoc. reflexivity.
Qed.

Lemma sample_assign_axes :
  @SphericalJoint.assign_axes sample_externals
     (sample_joint unit_z unit_x unit_y)
  = (true, sample_joint unit_z unit_x unit_y).
Proof.
  unfold SphericalJoint.assign_axes.
  rewrite (@unset_false sample_externals _ eAxis1)
    by (simpl; rewrite norm_unit_z; lra).
  rewrite (@unset_false sample_externals _ eAxis2)
    by (simpl; rewrite norm_unit_x; lra).
  rewrite (@unset_false sample_externals _ eAxis3)
    by (simpl; rewrite norm_unit_y; lra).
  reflexivity.
Qed.

Lemma sample_axes_orthonormal :
  @SphericalJoint.axes_orthonormal sample_externals sample_joint_updated
  = true.
Proof.
  unfold SphericalJoint.axes_orthonormal. simpl.
  rewrite norm_unit_x, norm_unit_y, norm_unit_z.
  unfold VECTOR3_dot. simpl.
  repeat rewrite bool_decide_eq_true_2; [reflexivity|..];
    match goal with
    | |- Rabs ?x < _ => replace x with 0 by lra; rewrite Rabs_R0; lra
    end.
Qed.

Lemma sample_update_spatial_axes :
  @SphericalJoint.update_spatial_axes sample_externals
     (sample_joint unit_z unit_x unit_y)
  = Ok sample_joint_updated.
Proof.
  unfold SphericalJoint.update_spatial_axes. simpl.
  rewrite sample_assign_axes. simpl.
  change (SphericalJoint.with_s_dot _ _) with sample_joint_updated.
  by rewrite sample_axes_orthonormal.
Qed.

Lemma get_spatial_axes_dot_formulas_witness :
  let qv := mkarray3 1 1 1 in
  let j := SphericalJoint.with_coordinates sample_joint_updated qv
             zero_coordinates qv in
  let u1 := at1 (SphericalJoint._u sample_joint_updated) in
  let u2 := at2 (SphericalJoint._u sample_joint_updated) in
  let u3 := ORIGIN3_of (at3 (SphericalJoint._u sample_joint_updated)) in
  let R1 := rodrigues u1 (1 + 0) in
  let R2 := rodrigues u2 (1 + 0) in
  let omega1 := ORIGIN3_of (VECTOR3_scale u1 1) in
  let omega2 := ORIGIN3_of (VECTOR3_scale u2 1) in
  exists (j' : SphericalJoint.t) (sd1 sd2 sd3 : SVELOCITY),
    @SphericalJoint.get_spatial_axes_dot sample_externals j
    = Ok (j', [sd1; sd2; sd3])
    /\ SphericalJoint._s_dot j' = [sd1; sd2; sd3]
    /\ SVELOCITY_get_angular sd1 = origin_zero
    /\ SVELOCITY_get_linear sd1 = origin_zero
    /\ SVELOCITY_get_angular sd2
       = ORIGIN3_cross omega1 (MATRIX3_mult_origin R1 (ORIGIN3_of u2))
    /\ SVELOCITY_get_linear sd2 = origin_zero
    /\ SVELOCITY_get_angular sd3
       = ORIGIN3_plus
           (ORIGIN3_cross omega1
              (MATRIX3_mult_origin R1 (MATRIX3_mult_origin R2 u3)))
           (MATRIX3_mult_origin R1
              (ORIGIN3_cross omega2 (MATRIX3_mult_origin R2 u3)))
    /\ SVELOCITY_get_linear sd3 = origin_zero.
Proof.
  apply (get_spatial_axes_dot_formulas sample_externals
           (sample_joint unit_z unit_x unit_y) sample_joint_updated
           (mkarray3 1 1 1) zero_coordinates (mkarray3 1 1 1)).
  - exists (sample_joint unit_z unit_x unit_y).
    split; [reflexivity|]. by rewrite sample_assign_axes.
  - exact sample_update_spatial_axes.
  - discriminate.
  - discriminate.
  - reflexivity.
Defined.

(** * Further properties of the vector storage *)

Close Scope R_scope.

Lemma fresh_loc_ne (h : store) (l : loc) :
  is_Some (h !! l) -> l <> fresh_loc h.
Proof.
  intros [a Ha] ->. rewrite fresh_loc_unused in Ha. discriminate.
Qed.

Lemma array_at_insert_ne (h : store) (l l' : loc) (a : list cell) :
  l <> l' -> array_at (<[l := a]> h) (Some l') = array_at h (Some l').
Proof. intros Hne. unfold array_at. by rewrite lookup_insert_ne. Qed.

Lemma well_formed_cells (h : store) (v : VectorN.t) :
  VectorN.well_formed h v ->
  N.to_nat (VectorN._len v) <= length (VectorN.buffer h v).
Proof. intros (Hle & Hlen & _). lia. Qed.

(** A vector with a cell has an array, and the array is in the store. *)
Lemma nonempty_buffer_allocated (h : store) (p : option loc) :
  0 < length (array_at h p) ->
  exists (l : loc) (a : list cell), p = Some l /\ h !! l = Some a
                                    /\ array_at h p = a.
Proof.
  destruct p as [l|]; simpl; [|lia].
  destruct (h !! l) as [a|] eqn:Ha; simpl; [|lia].
  intros _. exists l, a. by rewrite Ha.
Qed.

(** What [resize] does to a well-formed vector: it stays on its array or
    moves to the array allocated next. *)
Lemma resize_of_well_formed
    (h : store) (v : VectorN.t) (n : N) (preserve : bool) :
  VectorN.well_formed h v ->
  exists (h' : store) (v' : VectorN.t),
    VectorN.resize h v n preserve = Ok (h', v')
    /\ VectorN.well_formed h' v'
    /\ VectorN._len v' = n
    /\ (forall (l : loc) (a : list cell), h !! l = Some a -> h' !! l = Some a)
    /\ (VectorN._data v' = VectorN._data v
        \/ VectorN._data v' = Some (fresh_loc h)).
Proof.
  intros Hwf. pose proof (well_formed_cells h v Hwf) as Hcells.
  destruct Hwf as (Hle & Hlen & Halloc).
  destruct (N.eq_dec (VectorN._len v) n) as [Heq|Hne].
  - exists h, v. rewrite resize_same_length by done.
    split; [reflexivity|]. split; [done|]. split; [done|]. by auto.
  - destruct (N.lt_ge_cases n (VectorN._capacity v)) as [Hlt|Hge].
    + eexists h, _. rewrite resize_below_capacity by done.
      split; [reflexivity|]. split; [|by auto].
      split; [simpl; lia|]. split; [exact Hlen|exact Halloc].
    + assert (Hln : (VectorN._len v <= n)%N) by lia.
      destruct (resize_from_capacity h v n preserve Hne Hge Hln Hcells)
        as (a & -> & Ha & _).
      eexists _, _. split; [reflexivity|]. split; [|split; [reflexivity|]].
      * split; [simpl; lia|]. split.
        -- unfold VectorN.buffer. simpl VectorN._data.
           by rewrite array_at_insert.
        -- intros l [= <-]. by rewrite lookup_insert_eq.
      * split; [|by right].
        intros l b Hl. rewrite lookup_insert_ne; [done|].
        intros <-. rewrite fresh_loc_unused in Hl. discriminate.
Qed.

(** X1: on a well-formed vector [resize] always returns; the vector it
    returns is well formed and has the length asked for, and every array
    that was in the store is still there, unchanged. *)
Theorem resize_keeps_well_formed
    (h : store) (v : VectorN.t) (n : N) (preserve : bool) :
  VectorN.well_formed h v ->
  exists (h' : store) (v' : VectorN.t),
    VectorN.resize h v n preserve = Ok (h', v')
    /\ VectorN.well_formed h' v'
    /\ VectorN._len v' = n
    /\ forall (l : loc) (a : list cell), h !! l = Some a -> h' !! l = Some a.
Proof.
  intros Hwf.
  destruct (resize_of_well_formed h v n preserve Hwf)
    as (h' & v' & Hres & Hwf' & Hlen & Hframe & _).
  exists h', v'. split; [exact Hres|]. split; [exact Hwf'|].
  split; [exact Hlen|exact Hframe].
Qed.

Lemma sample_vector_well_formed :
  VectorN.well_formed sample_store (sample_vector 2 3).
Proof.
  split; [simpl; lia|]. split; [vm_compute; reflexivity|].
  intros l [= <-]. vm_compute. by eexists.
Qed.

Lemma resize_keeps_well_formed_witness :
  VectorN.well_formed sample_store (sample_vector 2 3)
  /\ exists (h' : store) (v' : VectorN.t),
       VectorN.resize sample_store (sample_vector 2 3) 7 true = Ok (h', v')
       /\ VectorN.well_formed h' v'
       /\ VectorN._len v' = 7%N
       /\ forall (l : loc) (a : list cell),
            sample_store !! l = Some a -> h' !! l = Some a.
Proof.
  split; [exact sample_vector_well_formed|].
  exact (resize_keeps_well_formed sample_store (sample_vector 2 3) 7 true
           sample_vector_well_formed).
Defined.

(** X2: on a well-formed vector [compress] always returns a well-formed
    vector whose array has exactly as many cells as the vector has
    elements, and every array that was in the store is still there,
    unchanged. *)
Theorem compress_keeps_well_formed (h : store) (v : VectorN.t) :
  VectorN.well_formed h v ->
  exists (h' : store) (v' : VectorN.t),
    VectorN.compress h v = Ok (h', v')
    /\ VectorN.well_formed h' v'
    /\ length (VectorN.buffer h' v') = N.to_nat (VectorN._len v)
    /\ forall (l : loc) (a : list cell), h !! l = Some a -> h' !! l = Some a.
Proof.
  intros Hwf. pose proof (well_formed_cells h v Hwf) as Hcells.
  destruct Hwf as (Hle & Hlen & Halloc).
  destruct (N.eq_dec (VectorN._len v) (VectorN._capacity v)) as [Heq|Hne].
  - exists h, v. rewrite compress_at_capacity by done.
    split; [reflexivity|]. split; [done|]. split; [lia|by auto].
  - unfold VectorN.compress.
    rewrite (proj2 (N.eqb_neq _ _) Hne).
    rewrite CBLAS_copy_unit_stride;
      [|lia|unfold new_array; rewrite length_replicate; lia].
    assert (Hnew : length (take (N.to_nat (VectorN._len v)) (VectorN.buffer h v)
                           ++ drop (N.to_nat (VectorN._len v))
                                (new_array (VectorN._len v)))
                   = N.to_nat (VectorN._len v)).
    { rewrite length_app, length_take, length_drop.
      unfold new_array. rewrite length_replicate. lia. }
    eexists _, _. split; [reflexivity|]. split; [|split].
    + split; [simpl; lia|]. split.
      * unfold VectorN.buffer at 1. simpl VectorN._data.
        by rewrite array_at_insert.
      * intros l [= <-]. by rewrite lookup_insert_eq.
    + unfold VectorN.buffer at 1. simpl VectorN._data.
      by rewrite array_at_insert.
    + intros l b Hl. rewrite lookup_insert_ne; [done|].
      intros <-. rewrite fresh_loc_unused in Hl. discriminate.
Qed.

Lemma compress_keeps_well_formed_witness :
  VectorN.well_formed sample_store (sample_vector 2 3)
  /\ exists (h' : store) (v' : VectorN.t),
       VectorN.compress sample_store (sample_vector 2 3) = Ok (h', v')
       /\ VectorN.well_formed h' v'
       /\ length (VectorN.buffer h' v') = N.to_nat 2
       /\ forall (l : loc) (a : list cell),
            sample_store !! l = Some a -> h' !! l = Some a.
Proof.
  split; [exact sample_vector_well_formed|].
  exact (compress_keeps_well_formed sample_store (sample_vector 2 3)
           sample_vector_well_formed).
Defined.

(** X4: below the capacity [resize] only moves the length: resizing a
    vector whose length is below its capacity to any [n] below the capacity
    and then back to the old length gives the vector and the store back as
    they were, whatever the two preserve flags are. *)
Theorem resize_below_capacity_round_trip
    (h : store) (v : VectorN.t) (n : N) (preserve preserve' : bool) :
  (VectorN._len v < VectorN._capacity v)%N ->
  (n < VectorN._capacity v)%N ->
  exists v1 : VectorN.t,
    VectorN.resize h v n preserve = Ok (h, v1)
    /\ VectorN._len v1 = n
    /\ VectorN.resize h v1 (VectorN._len v) preserve' = Ok (h, v).
Proof.
  intros Hlen Hn. destruct v as [d len cap]. simpl in *.
  destruct (N.eq_dec len n) as [->|Hne].
  - eexists. rewrite resize_same_length by done.
    split; [reflexivity|]. split; [reflexivity|].
    by rewrite resize_same_length.
  - eexists. rewrite resize_below_capacity by done.
    split; [reflexivity|]. split; [reflexivity|].
    rewrite resize_below_capacity; simpl; [reflexivity|congruence|done].
Qed.

Lemma resize_below_capacity_round_trip_witness :
  exists v1 : VectorN.t,
    VectorN.resize sample_store (sample_vector 2 3) 1 false
    = Ok (sample_store, v1)
    /\ VectorN._len v1 = 1%N
    /\ VectorN.resize sample_store v1 2 false
       = Ok (sample_store, sample_vector 2 3).
Proof.
  apply (resize_below_capacity_round_trip sample_store (sample_vector 2 3)
           1 false false); simpl; lia.
Defined.

(** X3: a view taken by [segment] does not follow the vector through a
    [resize] that reaches the capacity: the vector moves to a new array, a
    later write through the view still succeeds and is read back through
    the view, but no element of the vector changes. *)
Theorem resize_detaches_views
    (NEXCEPT : bool) (h : store) (v : VectorN.t) (s e n : N)
    (preserve : bool) :
  VectorN.well_formed h v ->
  (s <= e)%N -> (e <= VectorN._len v)%N -> (VectorN._len v < UINT_MOD)%N ->
  VectorN._len v <> n -> (VectorN._capacity v <= n)%N ->
  exists (x : SharedVectorN.t) (h' : store) (v' : VectorN.t),
    VectorN.segment NEXCEPT v s e = Ok x
    /\ VectorN.resize h v n preserve = Ok (h', v')
    /\ VectorN._data v' <> SharedVectorN._data x
    /\ forall (i : N) (r : REAL), (i < e - s)%N ->
         exists h'' : store,
           SharedVectorN.assign_index NEXCEPT h' x i r = Ok h''
           /\ SharedVectorN.operator_index NEXCEPT h'' x i = Ok (Some r)
           /\ forall k : nat,
                VectorN.element h'' v' k = VectorN.element h' v' k.
Proof.
  intros Hwf Hse He Hl Hne Hge.
  pose proof (well_formed_cells h v Hwf) as Hcells.
  destruct Hwf as (Hle & Hlen & Halloc).
  assert (Hln : (VectorN._len v <= n)%N) by lia.
  destruct (resize_from_capacity h v n preserve Hne Hge Hln Hcells)
    as (a & Hres & Ha & _).
  eexists _, _, _. split; [by apply segment_in_range|].
  split; [exact Hres|]. simpl.
  destruct (VectorN._data v) as [l|] eqn:Hd.
  - assert (Hfresh : l <> fresh_loc h) by (by apply fresh_loc_ne, Halloc).
    split; [congruence|].
    intros i r Hi.
    assert (Hadd : uadd i s = (s + i)%N) by (rewrite uadd_small; lia).
    unfold SharedVectorN.assign_index. simpl.
    rewrite (proj2 (N.ltb_ge (e - s) i)) by lia.
    rewrite andb_false_r, Hadd.
    rewrite (lookup_insert_ne h (fresh_loc h) l) by done.
    unfold VectorN.buffer, array_at in Hlen, Hcells. rewrite Hd in Hlen, Hcells.
    rewrite decide_True by lia.
    eexists. split; [reflexivity|]. split.
    + apply operator_index_below_length; simpl; [lia|].
      rewrite Hadd, lookup_insert_eq. simpl.
      apply list_lookup_insert_eq. lia.
    + intros k. unfold VectorN.element, VectorN.buffer. simpl VectorN._data.
      by rewrite array_at_insert_ne.
  - split; [discriminate|].
    intros i r Hi. unfold VectorN.buffer in Hcells. rewrite Hd in Hcells.
    simpl in Hcells. lia.
Qed.

Lemma resize_detaches_views_witness :
  exists (x : SharedVectorN.t) (h' : store) (v' : VectorN.t),
    VectorN.segment false (sample_vector 2 3) 0 2 = Ok x
    /\ VectorN.resize sample_store (sample_vector 2 3) 3 true = Ok (h', v')
    /\ VectorN._data v' <> SharedVectorN._data x
    /\ forall (i : N) (r : REAL), (i < 2 - 0)%N ->
         exists h'' : store,
           SharedVectorN.assign_index false h' x i r = Ok h''
           /\ SharedVectorN.operator_index false h'' x i = Ok (Some r)
           /\ forall k : nat,
                VectorN.element h'' v' k = VectorN.element h' v' k.
Proof.
  apply (resize_detaches_views false sample_store (sample_vector 2 3) 0 2 3
           true sample_vector_well_formed); simpl; try lia.
  vm_compute. reflexivity.
Defined.

(** ** Copies between two arrays of the store *)

Lemma CBLAS_copy_store_distinct
    (n : nat) (h : store) (lx ly : loc) (x y : list cell) (ox incx : nat) :
  lx <> ly -> h !! lx = Some x -> h !! ly = Some y ->
  n <= length y ->
  (forall k, k < n -> ox + k * incx < length x) ->
  exists y' : list cell,
    CBLAS_copy_store n h (Some lx) ox incx (Some ly) 0 1
    = Some (<[ly := y']> h)
    /\ length y' = length y
    /\ (forall k, k < n -> y' !! k = x !! (ox + k * incx))
    /\ (forall k, n <= k -> y' !! k = y !! k).
Proof.
  intros Hne Hx Hy. induction n as [|k IH]; intros Hn Hin.
  - exists y. simpl. rewrite insert_id by done.
    split; [reflexivity|]. split; [reflexivity|]. split; [lia|done].
  - destruct IH as (y' & Hcopy & Hlen & Hcopied & Hrest); [lia|auto with lia|].
    cbn [CBLAS_copy_store]. rewrite Hcopy.
    rewrite array_at_insert_ne by done.
    assert (Hax : array_at h (Some lx) = x)
      by (unfold array_at; by rewrite Hx).
    rewrite Hax.
    destruct (lookup_lt_is_Some_2 x (ox + k * incx)) as [c Hc];
      [apply Hin; lia|].
    rewrite Hc, array_at_insert, Nat.mul_1_r, Nat.add_0_l.
    rewrite decide_True by lia.
    rewrite insert_insert_eq.
    eexists. split; [reflexivity|].
    split; [by rewrite length_insert|]. split.
    + intros i Hi. destruct (decide (i = k)) as [->|Hik].
      * rewrite list_lookup_insert_eq by lia. done.
      * rewrite list_lookup_insert_ne by done. apply Hcopied. lia.
    + intros i Hi. rewrite list_lookup_insert_ne by lia. apply Hrest. lia.
Qed.

(** ** Assignment to a vector *)

(** X5: assigning a scalar to a well-formed vector always returns; the
    vector is then well formed, has length 1, and its element 0 is the
    scalar. *)
Theorem operator_assign_scalar_sets_single_element
    (h : store) (v : VectorN.t) (scalar : REAL) :
  VectorN.well_formed h v ->
  exists (h' : store) (v' : VectorN.t),
    VectorN.operator_assign_scalar h v scalar = Ok (h', v')
    /\ VectorN.well_formed h' v'
    /\ VectorN._len v' = 1%N
    /\ VectorN.element h' v' 0 = Some (Some scalar).
Proof.
  intros Hwf.
  destruct (resize_of_well_formed h v 1 false Hwf)
    as (h1 & v1 & Hres & Hwf1 & Hlen1 & _).
  unfold VectorN.operator_assign_scalar. rewrite Hres. simpl.
  pose proof (well_formed_cells h1 v1 Hwf1) as Hcells.
  destruct Hwf1 as (Hle & Hlen & Halloc).
  destruct (nonempty_buffer_allocated h1 (VectorN._data v1))
    as (l & a & Hd & Hl & Ha); [unfold VectorN.buffer in Hcells; lia|].
  unfold array_write. rewrite Hd.
  unfold VectorN.buffer in Hcells, Hlen. rewrite Hd in Hcells, Hlen, Ha.
  rewrite decide_True by lia. simpl.
  eexists _, _. split; [reflexivity|]. split; [|split; [exact Hlen1|]].
  - split; [exact Hle|]. split.
    + unfold VectorN.buffer. rewrite Hd, array_at_insert.
      by rewrite length_insert.
    + intros l' Hl'. rewrite Hd in Hl'. injection Hl' as <-.
      by rewrite lookup_insert_eq.
  - unfold VectorN.element, VectorN.buffer. rewrite Hd, array_at_insert.
    apply list_lookup_insert_eq. simpl in *. lia.
Qed.

Lemma operator_assign_scalar_sets_single_element_witness :
  VectorN.well_formed sample_store (sample_vector 2 3)
  /\ exists (h' : store) (v' : VectorN.t),
       VectorN.operator_assign_scalar sample_store (sample_vector 2 3) 5%R
       = Ok (h', v')
       /\ VectorN.well_formed h' v'
       /\ VectorN._len v' = 1%N
       /\ VectorN.element h' v' 0 = Some (Some 5%R).
Proof.
  split; [exact sample_vector_well_formed|].
  exact (operator_assign_scalar_sets_single_element sample_store
           (sample_vector 2 3) 5%R sample_vector_well_formed).
Defined.

(** An array that was in the store belongs to the same holder after a step
    that keeps the arrays of the store. *)
Lemma array_at_preserved (h h' : store) (p : option loc) :
  (forall l : loc, p = Some l -> is_Some (h !! l)) ->
  (forall (l : loc) (a : list cell), h !! l = Some a -> h' !! l = Some a) ->
  array_at h' p = array_at h p.
Proof.
  intros Halloc Hframe. destruct p as [l|]; [|reflexivity].
  destruct (Halloc l eq_refl) as [a Ha].
  unfold array_at. by rewrite Ha, (Hframe l a Ha).
Qed.

(** X6: assigning a well-formed vector to another one that does not share
    its array always returns; the target is then well formed, has the
    length of the source and its elements, and the source is unchanged. *)
Theorem operator_assign_copies_source (h : store) (v source : VectorN.t) :
  VectorN.well_formed h v ->
  VectorN.well_formed h source ->
  (forall l : loc, VectorN._data v = Some l ->
                   VectorN._data source <> Some l) ->
  exists (h' : store) (v' : VectorN.t),
    VectorN.operator_assign h v source = Ok (h', v')
    /\ VectorN.well_formed h' v'
    /\ VectorN._len v' = VectorN._len source
    /\ (forall i : N, (i < VectorN._len source)%N ->
          is_Some (VectorN.element h source (N.to_nat i))
          /\ VectorN.element h' v' (N.to_nat i)
             = VectorN.element h source (N.to_nat i))
    /\ VectorN.buffer h' source = VectorN.buffer h source.
Proof.
  intros Hwf Hwfs Hdistinct.
  pose proof (well_formed_cells h source Hwfs) as Hscells.
  assert (Hstep : exists (h1 : store) (v1 : VectorN.t),
            (if negb (VectorN._len v =? VectorN._len source)%N
             then VectorN.resize h v (VectorN._len source) false
             else Ok (h, v)) = Ok (h1, v1)
            /\ VectorN.well_formed h1 v1
            /\ VectorN._len v1 = VectorN._len source
            /\ (forall (l : loc) (a : list cell),
                  h !! l = Some a -> h1 !! l = Some a)
            /\ (forall l : loc, VectorN._data v1 = Some l ->
                                VectorN._data source <> Some l)).
  { destruct (VectorN._len v =? VectorN._len source)%N eqn:Heq; simpl.
    - exists h, v. apply N.eqb_eq in Heq. by auto.
    - destruct (resize_of_well_formed h v (VectorN._len source) false Hwf)
        as (h1 & v1 & Hres & Hwf1 & Hlen1 & Hframe & Hdata).
      exists h1, v1. split; [exact Hres|]. split; [exact Hwf1|].
      split; [exact Hlen1|]. split; [exact Hframe|].
      intros l Hl Hs.
      destruct Hdata as [Hd|Hd].
      + rewrite Hd in Hl. by apply (Hdistinct l).
      + rewrite Hd in Hl. injection Hl as <-.
        destruct Hwfs as (_ & _ & Halloc).
        destruct (Halloc _ Hs) as [a Ha].
        rewrite fresh_loc_unused in Ha. discriminate. }
  destruct Hstep as (h1 & v1 & Hstep & Hwf1 & Hlen1 & Hframe & Hdist1).
  unfold VectorN.operator_assign. rewrite Hstep. simpl.
  assert (Hsrc : VectorN.buffer h1 source = VectorN.buffer h source).
  { apply array_at_preserved; [|exact Hframe]. by destruct Hwfs as (_ & _ & ?). }
  pose proof (well_formed_cells h1 v1 Hwf1) as Hcells1.
  destruct (0 <? VectorN._len v1)%N eqn:Hpos.
  - apply N.ltb_lt in Hpos.
    destruct (nonempty_buffer_allocated h (VectorN._data source))
      as (lx & x & Hdx & Hlx & Hx); [unfold VectorN.buffer in Hscells; lia|].
    destruct (nonempty_buffer_allocated h1 (VectorN._data v1))
      as (ly & y & Hdy & Hly & Hy); [unfold VectorN.buffer in Hcells1; lia|].
    assert (Hne : lx <> ly).
    { intros ->. by apply (Hdist1 ly). }
    unfold VectorN.buffer in Hscells, Hcells1, Hsrc.
    rewrite Hx in Hscells, Hsrc. rewrite Hy in Hcells1.
    destruct (CBLAS_copy_store_distinct (N.to_nat (VectorN._len source))
                h1 lx ly x y 0 1 Hne (Hframe _ _ Hlx) Hly)
      as (y' & Hcopy & Hleny & Hcopied & _); [lia|intros k Hk; lia|].
    rewrite Hdx, Hdy, Hcopy.
    eexists _, _. split; [reflexivity|]. split; [|split; [exact Hlen1|split]].
    + destruct Hwf1 as (Hle1 & Hl1 & _). split; [exact Hle1|]. split.
      * unfold VectorN.buffer in *. rewrite Hdy, array_at_insert.
        rewrite Hy in Hl1. congruence.
      * intros l Hl. rewrite Hdy in Hl. injection Hl as <-.
        by rewrite lookup_insert_eq.
    + intros i Hi. unfold VectorN.element, VectorN.buffer.
      rewrite Hdx, Hdy, array_at_insert, <- Hdx, Hx.
      split; [apply lookup_lt_is_Some_2; lia|].
      rewrite Hcopied; [|lia]. by rewrite Nat.add_0_l, Nat.mul_1_r.
    + unfold VectorN.buffer. rewrite Hdx, array_at_insert_ne by done.
      rewrite <- Hdx. congruence.
  - apply N.ltb_ge in Hpos.
    eexists _, _. split; [reflexivity|]. split; [exact Hwf1|].
    split; [exact Hlen1|]. split; [|exact Hsrc].
    intros i Hi. lia.
Qed.

(** X7: the copy constructor copies the elements of a well-formed source
    into a new array of as many cells as the source has elements, but takes
    over the capacity of the source. When the source has spare capacity the
    copy is not well formed, and a [resize] of the copy to a length between
    the two stays on that array: the vector then claims more elements than
    its array has cells. *)
Theorem copy_construct_overstates_capacity (h : store) (source : VectorN.t) :
  VectorN.well_formed h source ->
  (VectorN._len source < VectorN._capacity source)%N ->
  exists (h' : store) (c : VectorN.t),
    VectorN.copy_construct h source = Ok (h', c)
    /\ VectorN._len c = VectorN._len source
    /\ VectorN._capacity c = VectorN._capacity source
    /\ (forall i : N, (i < VectorN._len source)%N ->
          VectorN.element h' c (N.to_nat i)
          = VectorN.element h source (N.to_nat i))
    /\ length (VectorN.buffer h' c) = N.to_nat (VectorN._len source)
    /\ ~ VectorN.well_formed h' c
    /\ forall (n : N) (preserve : bool),
         (VectorN._len source < n)%N -> (n < VectorN._capacity source)%N ->
         exists c' : VectorN.t,
           VectorN.resize h' c n preserve = Ok (h', c')
           /\ VectorN._len c' = n
           /\ length (VectorN.buffer h' c') < N.to_nat (VectorN._len c').
Proof.
  intros Hwfs Hspare.
  pose proof (well_formed_cells h source Hwfs) as Hscells.
  set (l := fresh_loc h).
  set (h1 := <[l := new_array (VectorN._len source)]> h).
  assert (Hcopy : exists y' : list cell,
            VectorN.copy_construct h source
            = Ok (<[l := y']> h1,
                  VectorN.mk (Some l) (VectorN._len source)
                    (VectorN._capacity source))
            /\ length y' = N.to_nat (VectorN._len source)
            /\ forall i : N, (i < VectorN._len source)%N ->
                 y' !! N.to_nat i = VectorN.element h source (N.to_nat i)).
  { unfold VectorN.copy_construct, VectorN.operator_assign. fold l. fold h1.
    cbn [VectorN._len VectorN._data]. rewrite N.eqb_refl. simpl negb.
    cbn [mbind outcome_bind VectorN._len VectorN._data].
    destruct (0 <? VectorN._len source)%N eqn:Hpos.
    - apply N.ltb_lt in Hpos.
      destruct (nonempty_buffer_allocated h (VectorN._data source))
        as (lx & x & Hdx & Hlx & Hx); [unfold VectorN.buffer in Hscells; lia|].
      assert (Hne : lx <> l) by (apply fresh_loc_ne; by rewrite Hlx).
      unfold VectorN.buffer in Hscells. rewrite Hx in Hscells.
      destruct (CBLAS_copy_store_distinct (N.to_nat (VectorN._len source))
                  h1 lx l x (new_array (VectorN._len source)) 0 1 Hne)
        as (y' & Hc & Hleny & Hcopied & _).
      + unfold h1. by rewrite lookup_insert_ne.
      + unfold h1. by rewrite lookup_insert_eq.
      + unfold new_array. rewrite length_replicate. lia.
      + intros k Hk. lia.
      + rewrite Hdx, Hc. exists y'. split; [reflexivity|]. split.
        * rewrite Hleny. unfold new_array. by rewrite length_replicate.
        * intros i Hi. unfold VectorN.element, VectorN.buffer.
          rewrite Hx, Hcopied by lia. f_equal. lia.
    - apply N.ltb_ge in Hpos.
      exists (new_array (VectorN._len source)).
      unfold h1 at 2. rewrite insert_insert_eq. fold h1.
      split; [reflexivity|]. split.
      + unfold new_array. by rewrite length_replicate.
      + intros i Hi. lia. }
  destruct Hcopy as (y' & Hcopy & Hleny & Hcopied).
  eexists _, _. split; [exact Hcopy|].
  assert (Hbuf : VectorN.buffer (<[l := y']> h1)
                   (VectorN.mk (Some l) (VectorN._len source)
                      (VectorN._capacity source)) = y').
  { unfold VectorN.buffer. cbn [VectorN._data]. apply array_at_insert. }
  split; [reflexivity|]. split; [reflexivity|]. split; [|split; [|split]].
  - intros i Hi. unfold VectorN.element at 1. rewrite Hbuf. by apply Hcopied.
  - by rewrite Hbuf.
  - intros (_ & Hlen & _). rewrite Hbuf in Hlen. simpl in Hlen. lia.
  - intros n preserve Hn Hcap.
    eexists. rewrite resize_below_capacity by (simpl; lia).
    split; [reflexivity|]. split; [reflexivity|].
    unfold VectorN.buffer in *. simpl in *. rewrite Hbuf. lia.
Qed.

(** ** [get_sub_vec] *)

(** X8: for a unit-stride view that lies within its array, a range
    [start <= end <= length] and a well-formed vector on another array,
    [get_sub_vec] always returns; the vector then has length [end - start],
    its element [k] is what indexing the view at [start + k] returns, and
    the array of the view is unchanged. Outside that range a checked build
    throws the index error. *)
Theorem get_sub_vec_copies_range
    (NEXCEPT : bool) (h : store) (x : SharedVectorN.t) (s e : N)
    (v : VectorN.t) :
  ((SharedVectorN._start x + SharedVectorN._len x < UINT_MOD)%N ->
   N.to_nat (SharedVectorN._start x + SharedVectorN._len x)
   <= length (array_at h (SharedVectorN._data x)) ->
   (forall l : loc, SharedVectorN._data x = Some l -> is_Some (h !! l)) ->
   SharedVectorN._inc x = 1%N ->
   (s <= e)%N -> (e <= SharedVectorN._len x)%N ->
   VectorN.well_formed h v ->
   (forall l : loc, VectorN._data v = Some l ->
                    SharedVectorN._data x <> Some l) ->
   exists (h' : store) (v' : VectorN.t),
     SharedVectorNCopy.get_sub_vec NEXCEPT h x s e v = Ok (h', v')
     /\ VectorN.well_formed h' v'
     /\ VectorN._len v' = (e - s)%N
     /\ array_at h' (SharedVectorN._data x) = array_at h (SharedVectorN._data x)
     /\ forall k : N, (k < e - s)%N ->
          exists c : cell,
            SharedVectorN.operator_index NEXCEPT h x (s + k) = Ok c
            /\ VectorN.element h' v' (N.to_nat k) = Some c)
  /\ ((e < s)%N \/ (SharedVectorN._len x < e)%N ->
      SharedVectorNCopy.get_sub_vec false h x s e v
      = Throw InvalidIndexException).
Proof.
  split.
  - intros Hrange Hcells Hxalloc Hinc Hse He Hwf Hdistinct.
    unfold SharedVectorNCopy.get_sub_vec.
    rewrite (proj2 (N.ltb_ge _ _) Hse), (proj2 (N.ltb_ge _ _) He).
    rewrite andb_false_r.
    rewrite usub_small by lia.
    destruct (resize_of_well_formed h v (e - s) false Hwf)
      as (h1 & v1 & Hres & Hwf1 & Hlen1 & Hframe & Hdata).
    rewrite Hres. cbn [mbind outcome_bind].
    assert (Hdist1 : forall l : loc, VectorN._data v1 = Some l ->
                       SharedVectorN._data x <> Some l).
    { intros l Hl Hx.
      destruct Hdata as [Hd|Hd]; rewrite Hd in Hl.
      - by apply (Hdistinct l).
      - injection Hl as <-. destruct (Hxalloc _ Hx) as [a Ha].
        rewrite fresh_loc_unused in Ha. discriminate. }
    assert (Hview : array_at h1 (SharedVectorN._data x)
                    = array_at h (SharedVectorN._data x))
      by (by apply array_at_preserved).
    pose proof (well_formed_cells h1 v1 Hwf1) as Hcells1.
    destruct ((SharedVectorN._len x =? 0) || (e - s =? 0))%N eqn:Hempty.
    + assert (Hz : (e - s = 0)%N).
      { apply orb_true_iff in Hempty as [H0|H0]; apply N.eqb_eq in H0; lia. }
      eexists _, _. split; [reflexivity|]. split; [exact Hwf1|].
      split; [exact Hlen1|]. split; [exact Hview|intros k Hk; lia].
    + apply orb_false_iff in Hempty as [Hx0 Hsz].
      apply N.eqb_neq in Hx0, Hsz.
      unfold SharedVectorN.data_at.
      rewrite (proj2 (N.leb_gt (SharedVectorN._len x) s)) by lia.
      rewrite andb_false_r. cbn [mbind outcome_bind].
      rewrite uadd_small by lia. rewrite Hinc.
      destruct (nonempty_buffer_allocated h (SharedVectorN._data x))
        as (lx & xa & Hdx & Hlx & Hxa); [lia|].
      destruct (nonempty_buffer_allocated h1 (VectorN._data v1))
        as (ly & y & Hdy & Hly & Hy); [unfold VectorN.buffer in Hcells1; lia|].
      assert (Hne : lx <> ly).
      { intros ->. by apply (Hdist1 ly). }
      rewrite Hxa in Hcells.
      unfold VectorN.buffer in Hcells1. rewrite Hy in Hcells1.
      destruct (CBLAS_copy_store_distinct (N.to_nat (e - s)) h1 lx ly xa y
                  (N.to_nat (s + SharedVectorN._start x)) 1 Hne
                  (Hframe _ _ Hlx) Hly)
        as (y' & Hcopy & Hleny & Hcopied & _); [lia|intros k Hk; lia|].
      rewrite Hdx, Hdy. change (N.to_nat 1) with 1%nat. rewrite Hcopy.
      eexists _, _. split; [reflexivity|].
      split; [|split; [exact Hlen1|split]].
      * destruct Hwf1 as (Hle1 & Hl1 & _). split; [exact Hle1|]. split.
        -- unfold VectorN.buffer in *. rewrite Hdy, array_at_insert.
           rewrite Hy in Hl1. congruence.
        -- intros l Hl. rewrite Hdy in Hl. injection Hl as <-.
           by rewrite lookup_insert_eq.
      * rewrite array_at_insert_ne by done. rewrite <- Hdx. exact Hview.
      * intros k Hk.
        destruct (lookup_lt_is_Some_2 xa
                    (N.to_nat (s + SharedVectorN._start x) + N.to_nat k * 1))
          as [c Hc]; [lia|].
        exists c. split.
        -- apply operator_index_below_length; [lia|].
           rewrite uadd_small by lia. rewrite Hdx, <- Hdx, Hxa.
           rewrite <- Hc. f_equal. lia.
        -- unfold VectorN.element, VectorN.buffer.
           rewrite Hdy, array_at_insert.
           rewrite Hcopied by lia. exact Hc.
  - intros Hbad. unfold SharedVectorNCopy.get_sub_vec.
    destruct Hbad as [H|H]; rewrite (proj2 (N.ltb_lt _ _) H); simpl;
      [reflexivity|by rewrite orb_true_r].
Qed.

Lemma sample_source_well_formed :
  VectorN.well_formed sample_store_two (sample_vector 2 3).
Proof.
  split; [simpl; lia|]. split; [vm_compute; reflexivity|].
  intros l [= <-]. vm_compute. by eexists.
Qed.

Lemma sample_target_well_formed :
  VectorN.well_formed sample_store_two sample_target.
Proof.
  split; [simpl; lia|]. split; [vm_compute; reflexivity|].
  intros l [= <-]. vm_compute. by eexists.
Qed.

Lemma operator_assign_copies_source_witness :
  exists (h' : store) (v' : VectorN.t),
    VectorN.operator_assign sample_store_two sample_target (sample_vector 2 3)
    = Ok (h', v')
    /\ VectorN.well_formed h' v'
    /\ VectorN._len v' = 2%N
    /\ (forall i : N, (i < 2)%N ->
          is_Some (VectorN.element sample_store_two (sample_vector 2 3)
                     (N.to_nat i))
          /\ VectorN.element h' v' (N.to_nat i)
             = VectorN.element sample_store_two (sample_vector 2 3)
                 (N.to_nat i))
    /\ VectorN.buffer h' (sample_vector 2 3)
       = VectorN.buffer sample_store_two (sample_vector 2 3).
Proof.
  apply (operator_assign_copies_source sample_store_two sample_target
           (sample_vector 2 3) sample_target_well_formed
           sample_source_well_formed).
  intros l [= <-]. discriminate.
Defined.

Lemma sample_short_vector_well_formed :
  VectorN.well_formed sample_store (sample_vector 1 3).
Proof.
  split; [simpl; lia|]. split; [vm_compute; reflexivity|].
  intros l [= <-]. vm_compute. by eexists.
Qed.

Lemma copy_construct_overstates_capacity_witness :
  exists (h' : store) (c : VectorN.t),
    VectorN.copy_construct sample_store (sample_vector 1 3) = Ok (h', c)
    /\ VectorN._len c = 1%N
    /\ VectorN._capacity c = 3%N
    /\ (forall i : N, (i < 1)%N ->
          VectorN.element h' c (N.to_nat i)
          = VectorN.element sample_store (sample_vector 1 3) (N.to_nat i))
    /\ length (VectorN.buffer h' c) = N.to_nat 1
    /\ ~ VectorN.well_formed h' c
    /\ forall (n : N) (preserve : bool),
         (1 < n)%N -> (n < 3)%N ->
         exists c' : VectorN.t,
           VectorN.resize h' c n preserve = Ok (h', c')
           /\ VectorN._len c' = n
           /\ length (VectorN.buffer h' c') < N.to_nat (VectorN._len c').
Proof.
  apply (copy_construct_overstates_capacity sample_store (sample_vector 1 3)
           sample_short_vector_well_formed).
  simpl. lia.
Defined.

Lemma get_sub_vec_copies_range_witness :
  exists (h' : store) (v' : VectorN.t),
    SharedVectorNCopy.get_sub_vec false sample_store_two sample_view 0 2
      sample_target = Ok (h', v')
    /\ VectorN.well_formed h' v'
    /\ VectorN._len v' = (2 - 0)%N
    /\ array_at h' (SharedVectorN._data sample_view)
       = array_at sample_store_two (SharedVectorN._data sample_view)
    /\ forall k : N, (k < 2 - 0)%N ->
         exists c : cell,
           SharedVectorN.operator_index false sample_store_two sample_view
             (0 + k) = Ok c
           /\ VectorN.element h' v' (N.to_nat k) = Some c.
Proof.
  apply (proj1 (get_sub_vec_copies_range false sample_store_two sample_view
                  0 2 sample_target)).
  - vm_compute. reflexivity.
  - vm_compute. lia.
  - intros l [= <-]. vm_compute. by eexists.
  - reflexivity.
  - lia.
  - simpl. lia.
  - exact sample_target_well_formed.
  - intros l [= <-]. discriminate.
Defined.

(** * [VECTORN::parse] *)

Section FindFirst.

Context {A : Type} (P : A -> Prop) `{forall x, Decision (P x)}.

(** Whatever satisfies [P] in a list is at or after the first position
    that does. *)
Lemma elem_of_drop_list_find (l : list A) (i : nat) (x y : A) :
  list_find P l = Some (i, x) -> y ∈ l -> P y -> y ∈ drop i l.
Proof.
  intros (Hx & _ & Hmin)%list_find_Some [j Hj]%list_elem_of_lookup HP.
  destruct (decide (j < i)) as [Hlt|Hge].
  - by destruct (Hmin j y Hj Hlt).
  - apply list_elem_of_lookup. exists (j - i).
    rewrite lookup_drop. rewrite <- Hj. f_equal. lia.
Qed.

Lemma list_find_head (x : A) (l : list A) :
  P x -> list_find P (x :: l) = Some (0, x).
Proof. intros HP. simpl. by rewrite decide_True. Qed.

Lemma list_find_tail (x : A) (l : list A) :
  ~ P x -> list_find P (x :: l) = prod_map S Datatypes.id <$> list_find P l.
Proof. intros HP. simpl. by rewrite decide_False. Qed.

End FindFirst.

Section ParseTokens.

Import VectorN.

Lemma delimiter_cases (c : ascii) :
  c ∈ delimiters <-> c ∈ [" "%char; TAB] \/ c ∈ [","%char].
Proof.
  unfold delimiters. rewrite !elem_of_cons, !elem_of_nil. tauto.
Qed.

Lemma space_or_tab_not_comma (c : ascii) :
  c ∈ [" "%char; TAB] -> c ∉ [","%char].
Proof.
  intros [->|[->|[]%elem_of_nil]%elem_of_cons]%elem_of_cons
         [Hc|[]%elem_of_nil]%elem_of_cons; discriminate Hc.
Qed.

(** The position [parse] cuts at is the first position of a space, a tab
    or a comma. *)
Lemma cut_position (copy : list ascii) :
  match find_first_of copy [" "%char; TAB], find_first_of copy [","%char] with
  | None, None => None
  | Some sp, None => Some sp
  | Some sp, Some cm => if sp <? cm then Some sp else Some cm
  | None, Some cm => Some cm
  end
  = find_first_of copy delimiters.
Proof.
  unfold find_first_of. induction copy as [|c copy IH]; [reflexivity|].
  destruct (decide (c ∈ [" "%char; TAB])) as [Hsp|Hsp].
  - rewrite (list_find_head _ c copy Hsp).
    rewrite (list_find_head (fun c => c ∈ delimiters) c copy)
      by (apply delimiter_cases; by left).
    rewrite (list_find_tail (fun c => c ∈ [","%char]) c copy)
      by (by apply space_or_tab_not_comma).
    destruct (list_find (fun c => c ∈ [","%char]) copy) as [[cm y]|];
      reflexivity.
  - rewrite (list_find_tail _ c copy Hsp).
    destruct (decide (c ∈ [","%char])) as [Hcm|Hcm].
    + rewrite (list_find_head _ c copy Hcm).
      rewrite (list_find_head (fun c => c ∈ delimiters) c copy)
        by (apply delimiter_cases; by right).
      destruct (list_find (fun c => c ∈ [" "%char; TAB]) copy) as [[sp y]|];
        reflexivity.
    + rewrite (list_find_tail _ c copy Hcm).
      rewrite (list_find_tail (fun c => c ∈ delimiters) c copy)
        by (rewrite delimiter_cases; tauto).
      destruct (list_find (fun c => c ∈ [" "%char; TAB]) copy) as [[sp y]|],
               (list_find (fun c => c ∈ [","%char]) copy) as [[cm z]|],
               (list_find (fun c => c ∈ delimiters) copy) as [[d w]|];
        simpl in *;
        try (change (S sp <? S cm) with (sp <? cm); destruct (sp <? cm));
        congruence.
Qed.

(** One round of the loop. *)
Lemma parse_tokens_step (fuel : nat) (copy : list ascii)
    (plist : list (list ascii)) :
  parse_tokens (S fuel) copy plist
  = match find_first_of copy delimiters with
    | None => Some (plist ++ [copy])
    | Some idx =>
        match find_first_not_of (drop idx copy) [" "%char; ","%char] with
        | None => Some (plist ++ [take idx copy])
        | Some firstidx =>
            parse_tokens fuel (drop firstidx (drop idx copy))
              (plist ++ [take idx copy])
        end
    end.
Proof. cbn [parse_tokens]. by rewrite cut_position. Qed.

End ParseTokens.

Lemma TAB_delimiter : VectorN.TAB ∈ VectorN.delimiters.
Proof. unfold VectorN.delimiters. rewrite !elem_of_cons. tauto. Qed.

Lemma TAB_not_skipped : VectorN.TAB ∉ [" "%char; ","%char].
Proof.
  intros [H|[H|[]%elem_of_nil]%elem_of_cons]%elem_of_cons; discriminate H.
Qed.

(** X10: the loop of [parse] cuts at a tab but skips only spaces and
    commas, so a tab is never consumed: on a text that contains a tab no
    number of rounds reaches a [break]. *)
Theorem parse_tokens_never_returns_on_tab
    (fuel : nat) (copy : list ascii) (plist : list (list ascii)) :
  VectorN.TAB ∈ copy -> VectorN.parse_tokens fuel copy plist = None.
Proof.
  revert copy plist. induction fuel as [|fuel IH]; intros copy plist Htab;
    [reflexivity|].
  rewrite parse_tokens_step.
  unfold VectorN.find_first_of, VectorN.find_first_not_of.
  destruct (list_find (fun c => c ∈ VectorN.delimiters) copy)
    as [[idx d]|] eqn:Hcut; simpl.
  - assert (Hrest : VectorN.TAB ∈ drop idx copy).
    { apply (elem_of_drop_list_find (fun c => c ∈ VectorN.delimiters)
               copy idx d); [exact Hcut|exact Htab|exact TAB_delimiter]. }
    destruct (list_find (fun c => c ∉ [" "%char; ","%char]) (drop idx copy))
      as [[firstidx d']|] eqn:Hskip; simpl.
    + apply IH.
      apply (elem_of_drop_list_find (fun c => c ∉ [" "%char; ","%char])
               (drop idx copy) firstidx d');
        [exact Hskip|exact Hrest|exact TAB_not_skipped].
    + apply list_find_None in Hskip.
      rewrite Forall_forall in Hskip.
      destruct (Hskip _ Hrest TAB_not_skipped).
  - apply list_find_None in Hcut. rewrite Forall_forall in Hcut.
    destruct (Hcut _ Htab TAB_delimiter).
Qed.

Lemma parse_tokens_never_returns_on_tab_witness :
  VectorN.parse_tokens 1000 (list_ascii_of_string "1" ++ [VectorN.TAB]
                             ++ list_ascii_of_string "2") [] = None.
Proof.
  apply parse_tokens_never_returns_on_tab.
  simpl. rewrite !elem_of_cons. tauto.
Defined.

(** Without tabs a delimiter is a space or a comma. *)
Lemma delimiter_skipped (copy : list ascii) (c : ascii) :
  VectorN.TAB ∉ copy -> c ∈ copy -> c ∈ VectorN.delimiters ->
  c ∈ [" "%char; ","%char].
Proof.
  intros Htab Hc. unfold VectorN.delimiters.
  rewrite !elem_of_cons, !elem_of_nil.
  intros [->|[->|[->|[]]]]; [tauto|by destruct Htab|tauto].
Qed.

Lemma parse_tokens_returns
    (fuel : nat) (copy : list ascii) (plist : list (list ascii)) :
  VectorN.TAB ∉ copy -> length copy < fuel ->
  exists toks : list (list ascii),
    VectorN.parse_tokens fuel copy plist = Some (plist ++ toks)
    /\ toks <> []
    /\ length toks <= S (length copy)
    /\ Forall (fun tok => Forall (fun c => c ∉ VectorN.delimiters) tok) toks.
Proof.
  revert copy plist. induction fuel as [|fuel IH]; intros copy plist Htab Hfuel;
    [lia|].
  rewrite parse_tokens_step.
  unfold VectorN.find_first_of, VectorN.find_first_not_of.
  destruct (list_find (fun c => c ∈ VectorN.delimiters) copy)
    as [[idx d]|] eqn:Hcut; simpl.
  - apply list_find_Some in Hcut as (Hd & Hdelim & Hmin).
    assert (Htok : Forall (fun c => c ∉ VectorN.delimiters) (take idx copy)).
    { apply Forall_forall. intros c (j & Hj & Hlt)%elem_of_take. eauto. }
    assert (Hhead : drop idx copy !! 0 = Some d)
      by (rewrite lookup_drop; rewrite <- Hd; f_equal; lia).
    destruct (list_find (fun c => c ∉ [" "%char; ","%char]) (drop idx copy))
      as [[firstidx d']|] eqn:Hskip; simpl.
    + apply list_find_Some in Hskip as (Hd' & Hnot & _).
      assert (Hpos : firstidx <> 0).
      { intros ->. rewrite Hhead in Hd'. injection Hd' as <-.
        apply Hnot. apply (delimiter_skipped copy); [done| |done].
        by eapply list_elem_of_lookup_2. }
      destruct (IH (drop firstidx (drop idx copy)) (plist ++ [take idx copy]))
        as (toks & Hrun & _ & Hcount & Htoks).
      * intros Hin. apply Htab.
        by eapply subseteq_drop, subseteq_drop.
      * rewrite !length_drop. apply lookup_lt_Some in Hd. lia.
      * exists (take idx copy :: toks). rewrite Hrun, <- app_assoc.
        split; [reflexivity|]. split; [discriminate|]. split.
        -- simpl. rewrite !length_drop in Hcount.
           apply lookup_lt_Some in Hd. lia.
        -- by constructor.
    + exists [take idx copy]. split; [reflexivity|]. split; [discriminate|].
      split; [simpl; lia|]. by constructor.
  - apply list_find_None in Hcut.
    exists [copy]. split; [reflexivity|]. split; [discriminate|].
    split; [simpl; lia|]. constructor; [|constructor].
    eapply Forall_impl; [exact Hcut|]. by intros c Hc.
Qed.

(** X9: on a text without tabs the loop of [parse] ends within one round
    more than the text has characters; it yields at least one token, at
    most one more than the text has characters, and no token contains a
    space, a tab or a comma. *)
Theorem parse_tokens_returns_delimiter_free (s : list ascii) :
  VectorN.TAB ∉ s ->
  exists toks : list (list ascii),
    VectorN.parse_tokens (S (length s)) s [] = Some toks
    /\ toks <> []
    /\ length toks <= S (length s)
    /\ Forall (fun tok => Forall (fun c => c ∉ VectorN.delimiters) tok) toks.
Proof.
  intros Htab.
  destruct (parse_tokens_returns (S (length s)) s [] Htab) as (toks & H);
    [lia|]. by exists toks.
Qed.

Lemma parse_tokens_returns_delimiter_free_witness :
  exists toks : list (list ascii),
    VectorN.parse_tokens (S (length (list_ascii_of_string "1, 2")))
      (list_ascii_of_string "1, 2") [] = Some toks
    /\ toks <> []
    /\ length toks <= S (length (list_ascii_of_string "1, 2"))
    /\ Forall (fun tok => Forall (fun c => c ∉ VectorN.delimiters) tok) toks.
Proof.
  apply parse_tokens_returns_delimiter_free.
  simpl. rewrite !elem_of_cons, elem_of_nil.
  intros [H|[H|[H|[H|[]]]]]; discriminate H.
Defined.

Lemma join_tokens_head (sep : list ascii) (c : ascii) (tok : list ascii)
    (toks : list (list ascii)) :
  exists rest : list ascii,
    VectorN.join_tokens sep (c :: tok) toks = c :: rest.
Proof. destruct toks; simpl; by eexists. Qed.

Lemma parse_tokens_of_join
    (sep : list ascii) (toks : list (list ascii)) :
  sep <> [] ->
  Forall (fun c => c ∈ [" "%char; ","%char]) sep ->
  Forall (fun tok => tok <> []
                     /\ Forall (fun c => c ∉ VectorN.delimiters) tok) toks ->
  forall (tok : list ascii) (plist : list (list ascii)) (fuel : nat),
    Forall (fun c => c ∉ VectorN.delimiters) tok ->
    length (VectorN.join_tokens sep tok toks) < fuel ->
    VectorN.parse_tokens fuel (VectorN.join_tokens sep tok toks) plist
    = Some (plist ++ tok :: toks).
Proof.
  intros Hsep Hseps Htoks.
  induction Htoks as [|tok' toks [Hne Htok'] Htoks IH];
    intros tok plist fuel Htok Hfuel;
    (destruct fuel as [|fuel]; [lia|]); rewrite parse_tokens_step;
    unfold VectorN.find_first_of, VectorN.find_first_not_of.
  - simpl. rewrite (proj2 (list_find_None _ tok)); [reflexivity|].
    eapply Forall_impl; [exact Htok|]. by intros c Hc.
  - destruct sep as [|s0 sep]; [done|].
    apply Forall_cons in Hseps as [Hs0 Hseps].
    assert (Hs0d : s0 ∈ VectorN.delimiters).
    { unfold VectorN.delimiters. revert Hs0.
      rewrite !elem_of_cons, !elem_of_nil. tauto. }
    cbn [VectorN.join_tokens].
    rewrite list_find_app_r
      by (apply list_find_None; eapply Forall_impl; [exact Htok|];
          by intros c Hc).
    rewrite <- app_comm_cons.
    rewrite (list_find_head _ s0 _ Hs0d). simpl.
    rewrite drop_app_length, take_app_length.
    destruct tok' as [|c tok']; [done|].
    destruct (join_tokens_head (s0 :: sep) c tok' toks) as [rest Hrest].
    rewrite app_comm_cons.
    rewrite list_find_app_r.
    2:{ apply list_find_None. constructor; [by intros Hn; apply Hn|].
        eapply Forall_impl; [exact Hseps|]. by intros c' Hc' Hn. }
    rewrite Hrest.
    rewrite list_find_head.
    2:{ apply Forall_cons in Htok' as [Hc _]. intros Hin. apply Hc.
        unfold VectorN.delimiters. revert Hin.
        rewrite !elem_of_cons, !elem_of_nil. tauto. }
    simpl. rewrite <- Hrest.
    change (s0 :: sep ++ VectorN.join_tokens (s0 :: sep) (c :: tok') toks)
      with ((s0 :: sep) ++ VectorN.join_tokens (s0 :: sep) (c :: tok') toks).
    rewrite drop_app_length.
    rewrite IH; [by rewrite <- app_assoc|done|].
    cbn [VectorN.join_tokens] in Hfuel. rewrite !length_app in Hfuel.
    simpl in Hfuel. lia.
Qed.

(** X11: tokens without spaces, tabs and commas, all but the first one not
    empty, written with a separator of spaces and commas between them, are
    the tokens the loop of [parse] reads back. *)
Theorem parse_tokens_round_trip
    (sep tok : list ascii) (toks : list (list ascii)) :
  sep <> [] ->
  Forall (fun c => c ∈ [" "%char; ","%char]) sep ->
  Forall (fun c => c ∉ VectorN.delimiters) tok ->
  Forall (fun tok => tok <> []
                     /\ Forall (fun c => c ∉ VectorN.delimiters) tok) toks ->
  VectorN.parse_tokens (S (length (VectorN.join_tokens sep tok toks)))
    (VectorN.join_tokens sep tok toks) []
  = Some (tok :: toks).
Proof.
  intros Hsep Hseps Htok Htoks.
  by rewrite (parse_tokens_of_join sep toks Hsep Hseps Htoks tok []) by (done || lia).
Qed.

Lemma parse_tokens_round_trip_witness :
  let sep := list_ascii_of_string ", " in
  let tok := list_ascii_of_string "1" in
  let toks := [list_ascii_of_string "2.5"; list_ascii_of_string "-inf"] in
  VectorN.parse_tokens (S (length (VectorN.join_tokens sep tok toks)))
    (VectorN.join_tokens sep tok toks) []
  = Some (tok :: toks).
Proof.
  apply parse_tokens_round_trip.
  - discriminate.
  - compute_done.
  - compute_done.
  - compute_done.
Defined.

Section ParseValues.

Variable atof : list ascii -> REAL.
Variable infinity : REAL.

Lemma store_values_writes (toks : list (list ascii)) :
  forall (h : store) (v : VectorN.t) (idx : nat) (l : loc) (a : list cell),
    VectorN._data v = Some l -> h !! l = Some a ->
    idx + length toks <= length a ->
    exists a' : list cell,
      VectorN.store_values atof infinity h v idx toks = Ok (<[l := a']> h)
      /\ length a' = length a
      /\ (forall (i : nat) (tok : list ascii), toks !! i = Some tok ->
            a' !! (idx + i)
            = Some (Some (VectorN.token_value atof infinity tok)))
      /\ (forall k : nat, k < idx -> a' !! k = a !! k).
Proof.
  induction toks as [|tok toks IH]; intros h v idx l a Hd Hl Hlen.
  - exists a. simpl. rewrite insert_id by done.
    split; [reflexivity|]. split; [reflexivity|]. split; [|done].
    intros i tok' Hi. discriminate Hi.
  - simpl in Hlen. cbn [VectorN.store_values].
    unfold array_write. rewrite Hd.
    assert (Ha : array_at h (Some l) = a) by (unfold array_at; by rewrite Hl).
    rewrite Ha, decide_True by lia. cbn [mbind outcome_bind].
    set (a1 := <[idx := Some (VectorN.token_value atof infinity tok)]> a).
    destruct (IH (<[l := a1]> h) v (S idx) l a1 Hd)
      as (a' & Hrun & Hlen' & Hwritten & Hkept).
    + by rewrite lookup_insert_eq.
    + unfold a1. rewrite length_insert. lia.
    + exists a'. rewrite Hrun, insert_insert_eq.
      split; [reflexivity|]. split.
      * rewrite Hlen'. unfold a1. by rewrite length_insert.
      * split.
        -- intros [|i] tok' Hi.
           ++ injection Hi as <-. rewrite Nat.add_0_r.
              rewrite Hkept; [|lia].
              unfold a1. apply list_lookup_insert_eq.
              unfold cell in *. lia.
           ++ replace (idx + S i) with (S idx + i) by lia. by apply Hwritten.
        -- intros k Hk. rewrite Hkept by lia.
           unfold a1. apply list_lookup_insert_ne. lia.
Qed.

(** X12: for a text without tabs, short enough for its token count to be
    an [unsigned], and a well-formed vector, [parse] returns; the vector
    then is well formed, has as many elements as the loop found tokens, and
    element [i] is the value of token [i]. *)
Theorem parse_fills_vector (h : store) (s : list ascii) (values : VectorN.t) :
  VectorN.TAB ∉ s ->
  (N.of_nat (S (length s)) < UINT_MOD)%N ->
  VectorN.well_formed h values ->
  exists (toks : list (list ascii)) (h' : store) (v' : VectorN.t),
    VectorN.parse_tokens (S (length s)) s [] = Some toks
    /\ VectorN.parse atof infinity (S (length s)) h s values
       = Some (Ok (h', v'))
    /\ VectorN.well_formed h' v'
    /\ VectorN._len v' = N.of_nat (length toks)
    /\ forall (i : nat) (tok : list ascii), toks !! i = Some tok ->
         VectorN.element h' v' i
         = Some (Some (VectorN.token_value atof infinity tok)).
Proof.
  intros Htab Hshort Hwf.
  destruct (parse_tokens_returns (S (length s)) s [] Htab)
    as (toks & Hrun & Hne & Hcount & _); [lia|].
  rewrite app_nil_l in Hrun.
  exists toks. unfold VectorN.parse. rewrite Hrun.
  rewrite N.mod_small by lia.
  destruct (resize_of_well_formed h values (N.of_nat (length toks)) false
              Hwf) as (h1 & v1 & Hres & Hwf1 & Hlen1 & _).
  rewrite Hres. cbn [mbind outcome_bind].
  pose proof (well_formed_cells h1 v1 Hwf1) as Hcells.
  destruct Hwf1 as (Hle & Hlen & Halloc).
  assert (Hpos : 0 < length toks) by (destruct toks; [done|simpl; lia]).
  destruct (nonempty_buffer_allocated h1 (VectorN._data v1))
    as (l & a & Hd & Hl & Ha); [unfold VectorN.buffer in Hcells; lia|].
  unfold VectorN.buffer in Hcells, Hlen. rewrite Ha in Hcells, Hlen.
  destruct (store_values_writes toks h1 v1 0 l a Hd Hl)
    as (a' & Hstore & Hlen' & Hwritten & _); [lia|].
  rewrite Hstore. cbn [mbind outcome_bind].
  eexists _, _. split; [reflexivity|]. split; [reflexivity|].
  split; [|split; [exact Hlen1|]].
  - split; [exact Hle|]. split.
    + unfold VectorN.buffer. rewrite Hd, array_at_insert. congruence.
    + intros l' Hl'. rewrite Hd in Hl'. injection Hl' as <-.
      by rewrite lookup_insert_eq.
  - intros i tok Hi. unfold VectorN.element, VectorN.buffer.
    rewrite Hd, array_at_insert. by apply (Hwritten i tok).
Qed.

End ParseValues.

Lemma parse_fills_vector_witness :
  let atof := fun tok : list ascii => INR (length tok) in
  let s := list_ascii_of_string "1, 22" in
  exists (toks : list (list ascii)) (h' : store) (v' : VectorN.t),
    VectorN.parse_tokens (S (length s)) s [] = Some toks
    /\ VectorN.parse atof 1%R (S (length s)) sample_store s
         (sample_vector 2 3)
       = Some (Ok (h', v'))
    /\ VectorN.well_formed h' v'
    /\ VectorN._len v' = N.of_nat (length toks)
    /\ forall (i : nat) (tok : list ascii), toks !! i = Some tok ->
         VectorN.element h' v' i
         = Some (Some (VectorN.token_value atof 1%R tok)).
Proof.
  apply parse_fills_vector.
  - compute_done.
  - vm_compute. reflexivity.
  - exact sample_vector_well_formed.
Defined.

(** * Further properties of the spherical joint *)

Open Scope R_scope.

(** ** Unit vectors and cross products *)

Lemma VECTOR3_dot_self_nonneg (v : VECTOR3) : 0 <= VECTOR3_dot v v.
Proof. unfold VECTOR3_dot. nra. Qed.

Lemma VECTOR3_norm_one (v : VECTOR3) :
  VECTOR3_norm v = 1 <-> VECTOR3_dot v v = 1.
Proof.
  change (VECTOR3_norm v) with (sqrt (VECTOR3_dot v v)). split.
  - intros Hn. rewrite <- (sqrt_sqrt _ (VECTOR3_dot_self_nonneg v)).
    rewrite Hn. lra.
  - intros ->. apply sqrt_1.
Qed.

Lemma VECTOR3_normalize_unit (v : VECTOR3) :
  0 < VECTOR3_norm v -> VECTOR3_dot (VECTOR3_normalize v) (VECTOR3_normalize v) = 1.
Proof.
  intros Hpos.
  pose proof (sqrt_sqrt _ (VECTOR3_dot_self_nonneg v)) as Hsq.
  change (sqrt (VECTOR3_dot v v)) with (VECTOR3_norm v) in Hsq.
  unfold VECTOR3_normalize, VECTOR3_dot in *. simpl.
  set (n := VECTOR3_norm v) in *.
  replace (vx v / n * (vx v / n) + vy v / n * (vy v / n) + vz v / n * (vz v / n))
    with ((vx v * vx v + vy v * vy v + vz v * vz v) / (n * n))
    by (field; lra).
  rewrite <- Hsq. field. nra.
Qed.

Lemma VECTOR3_normalize_orthogonal (a b : VECTOR3) :
  0 < VECTOR3_norm a -> 0 < VECTOR3_norm b -> VECTOR3_dot a b = 0 ->
  VECTOR3_dot (VECTOR3_normalize a) (VECTOR3_normalize b) = 0.
Proof.
  intros Ha Hb Hab. unfold VECTOR3_normalize, VECTOR3_dot in *. simpl.
  set (n := VECTOR3_norm a) in *. set (m := VECTOR3_norm b) in *.
  replace (vx a / n * (vx b / m) + vy a / n * (vy b / m) + vz a / n * (vz b / m))
    with ((vx a * vx b + vy a * vy b + vz a * vz b) / (n * m))
    by (field; lra).
  rewrite Hab. field. lra.
Qed.

Lemma VECTOR3_dot_comm (a b : VECTOR3) : VECTOR3_dot a b = VECTOR3_dot b a.
Proof. unfold VECTOR3_dot. ring. Qed.

(** Lagrange's identity and the two orthogonality laws of the cross
    product. *)
Lemma VECTOR3_cross_norm (a b : VECTOR3) :
  VECTOR3_dot (VECTOR3_cross a b) (VECTOR3_cross a b)
  = VECTOR3_dot a a * VECTOR3_dot b b - VECTOR3_dot a b * VECTOR3_dot a b.
Proof. destruct a, b. unfold_geometry. ring. Qed.

Lemma VECTOR3_cross_orthogonal_l (a b : VECTOR3) :
  VECTOR3_dot a (VECTOR3_cross a b) = 0.
Proof. destruct a, b. unfold_geometry. ring. Qed.

Lemma VECTOR3_cross_orthogonal_r (a b : VECTOR3) :
  VECTOR3_dot b (VECTOR3_cross a b) = 0.
Proof. destruct a, b. unfold_geometry. ring. Qed.

Lemma VECTOR3_triple_after (a b : VECTOR3) :
  VECTOR3_dot a (VECTOR3_cross b (VECTOR3_cross a b))
  = VECTOR3_dot a a * VECTOR3_dot b b - VECTOR3_dot a b * VECTOR3_dot a b.
Proof. destruct a, b. unfold_geometry. ring. Qed.

Lemma VECTOR3_triple_between (a c : VECTOR3) :
  VECTOR3_dot a (VECTOR3_cross (VECTOR3_cross c a) c)
  = VECTOR3_dot c c * VECTOR3_dot a a - VECTOR3_dot c a * VECTOR3_dot c a.
Proof. destruct a, c. unfold_geometry. ring. Qed.

(** Two orthogonal unit vectors and their cross product, in each of the
    three cyclic placements. *)
Lemma orthonormal_pair_completed (a b : VECTOR3) :
  VECTOR3_dot a a = 1 -> VECTOR3_dot b b = 1 -> VECTOR3_dot a b = 0 ->
  right_handed_orthonormal (mkarray3 a b (VECTOR3_cross a b))
  /\ right_handed_orthonormal (mkarray3 (VECTOR3_cross a b) a b)
  /\ right_handed_orthonormal (mkarray3 b (VECTOR3_cross a b) a).
Proof.
  intros Ha Hb Hab.
  assert (Hc : VECTOR3_dot (VECTOR3_cross a b) (VECTOR3_cross a b) = 1)
    by (rewrite VECTOR3_cross_norm, Ha, Hb, Hab; ring).
  pose proof (VECTOR3_cross_orthogonal_l a b) as Hac.
  pose proof (VECTOR3_cross_orthogonal_r a b) as Hbc.
  unfold right_handed_orthonormal. simpl.
  rewrite !VECTOR3_norm_one.
  repeat split; try assumption.
  - rewrite VECTOR3_triple_after, Ha, Hb, Hab. ring.
  - by rewrite VECTOR3_dot_comm.
  - by rewrite VECTOR3_dot_comm.
  - by rewrite VECTOR3_dot_comm.
  - by rewrite VECTOR3_dot_comm.
  - rewrite VECTOR3_triple_between, Ha, Hb, Hab. ring.
Qed.

(** ** Completing two orthogonal axes *)

Lemma assign_axes_orthogonal_pair
    (ext : SphericalJoint.Externals) (j : SphericalJoint.t) :
  let u1 := at1 (SphericalJoint._u j) in
  let u2 := at2 (SphericalJoint._u j) in
  let u3 := at3 (SphericalJoint._u j) in
  let EPS := SphericalJoint.EPS in
  0 < EPS ->
  (EPS <= VECTOR3_norm u1 /\ EPS <= VECTOR3_norm u2 /\ VECTOR3_norm u3 < EPS
   /\ VECTOR3_dot u1 u2 = 0)
  \/ (VECTOR3_norm u1 < EPS /\ EPS <= VECTOR3_norm u2 /\ EPS <= VECTOR3_norm u3
      /\ VECTOR3_dot u2 u3 = 0)
  \/ (EPS <= VECTOR3_norm u1 /\ VECTOR3_norm u2 < EPS /\ EPS <= VECTOR3_norm u3
      /\ VECTOR3_dot u3 u1 = 0) ->
  exists u' : array3 VECTOR3,
    SphericalJoint.assign_axes j = (true, SphericalJoint.with_u j u')
    /\ right_handed_orthonormal u'.
Proof.
  intros u1 u2 u3 EPS Heps Hpair.
  unfold SphericalJoint.assign_axes.
  destruct Hpair as [(H1 & H2 & H3 & Hdot)|[(H1 & H2 & H3 & Hdot)
                                           |(H1 & H2 & H3 & Hdot)]].
  - rewrite (unset_false j eAxis1), (unset_false j eAxis2),
      (unset_true j eAxis3) by done.
    eexists. split; [reflexivity|].
    apply orthonormal_pair_completed.
    + apply VECTOR3_normalize_unit. fold u1. lra.
    + apply VECTOR3_normalize_unit. fold u2. lra.
    + apply VECTOR3_normalize_orthogonal; fold u1 u2; lra.
  - rewrite (unset_true j eAxis1), (unset_false j eAxis2),
      (unset_false j eAxis3) by done.
    eexists. split; [reflexivity|].
    apply orthonormal_pair_completed.
    + apply VECTOR3_normalize_unit. fold u2. lra.
    + apply VECTOR3_normalize_unit. fold u3. lra.
    + apply VECTOR3_normalize_orthogonal; fold u2 u3; lra.
  - rewrite (unset_false j eAxis1), (unset_true j eAxis2),
      (unset_false j eAxis3) by done.
    eexists. split; [reflexivity|].
    apply orthonormal_pair_completed.
    + apply VECTOR3_normalize_unit. fold u3. lra.
    + apply VECTOR3_normalize_unit. fold u1. lra.
    + apply VECTOR3_normalize_orthogonal; fold u1 u3; lra.
Qed.

(** X13: when two axes are set and orthogonal and the third is unset,
    [assign_axes] leaves a right-handed orthonormal triad: three unit axes,
    pairwise orthogonal, with axis 1 . (axis 2 x axis 3) = 1. *)
Theorem assign_axes_orthonormal_triad
    (ext : SphericalJoint.Externals) (j : SphericalJoint.t) :
  let u1 := at1 (SphericalJoint._u j) in
  let u2 := at2 (SphericalJoint._u j) in
  let u3 := at3 (SphericalJoint._u j) in
  let EPS := SphericalJoint.EPS in
  0 < EPS ->
  (EPS <= VECTOR3_norm u1 /\ EPS <= VECTOR3_norm u2 /\ VECTOR3_norm u3 < EPS
   /\ VECTOR3_dot u1 u2 = 0)
  \/ (VECTOR3_norm u1 < EPS /\ EPS <= VECTOR3_norm u2 /\ EPS <= VECTOR3_norm u3
      /\ VECTOR3_dot u2 u3 = 0)
  \/ (EPS <= VECTOR3_norm u1 /\ VECTOR3_norm u2 < EPS /\ EPS <= VECTOR3_norm u3
      /\ VECTOR3_dot u3 u1 = 0) ->
  exists j' : SphericalJoint.t,
    SphericalJoint.assign_axes j = (true, j')
    /\ right_handed_orthonormal (SphericalJoint._u j').
Proof.
  intros u1 u2 u3 EPS Heps Hpair.
  destruct (assign_axes_orthogonal_pair ext j Heps Hpair) as (u' & Hrun & Hu').
  exists (SphericalJoint.with_u j u'). split; [exact Hrun|].
  simpl. exact Hu'.
Qed.

Lemma assign_axes_orthonormal_triad_witness :
  exists j' : SphericalJoint.t,
    @SphericalJoint.assign_axes sample_externals
       (sample_joint unit_x unit_y origin_zero) = (true, j')
    /\ right_handed_orthonormal (SphericalJoint._u j').
Proof.
  apply (assign_axes_orthonormal_triad sample_externals
           (sample_joint unit_x unit_y origin_zero)).
  - simpl. lra.
  - left. simpl.
    rewrite norm_unit_x, norm_unit_y, norm_origin_zero.
    unfold VECTOR3_dot. simpl. repeat split; lra.
Defined.

Lemma axes_orthonormal_of_triad
    (ext : SphericalJoint.Externals) (j : SphericalJoint.t) :
  0 < SphericalJoint.EPS ->
  right_handed_orthonormal (SphericalJoint._u j) ->
  SphericalJoint.axes_orthonormal j = true.
Proof.
  intros Heps (H1 & H2 & H3 & H12 & H13 & H23 & _).
  unfold SphericalJoint.axes_orthonormal.
  rewrite H1, H2, H3, H12, H13, H23.
  replace (1 - 1) with 0 by lra. rewrite Rabs_R0.
  by rewrite !bool_decide_eq_true_2.
Qed.

(** X14: when the base-class update returns a joint with two orthogonal
    axes set, the third unset and non-empty axis vectors,
    [update_spatial_axes] returns, with or without assertions: the
    completed triad passes them. The first spatial axis then is axis 1 as
    the angular part and a zero linear part. *)
Theorem update_spatial_axes_accepts_orthogonal_pair
    (ext : SphericalJoint.Externals) (j0 j : SphericalJoint.t) :
  let u1 := at1 (SphericalJoint._u j) in
  let u2 := at2 (SphericalJoint._u j) in
  let u3 := at3 (SphericalJoint._u j) in
  let EPS := SphericalJoint.EPS in
  0 < EPS ->
  SphericalJoint.JOINT_update_spatial_axes j0 = Ok j ->
  (EPS <= VECTOR3_norm u1 /\ EPS <= VECTOR3_norm u2 /\ VECTOR3_norm u3 < EPS
   /\ VECTOR3_dot u1 u2 = 0)
  \/ (VECTOR3_norm u1 < EPS /\ EPS <= VECTOR3_norm u2 /\ EPS <= VECTOR3_norm u3
      /\ VECTOR3_dot u2 u3 = 0)
  \/ (EPS <= VECTOR3_norm u1 /\ VECTOR3_norm u2 < EPS /\ EPS <= VECTOR3_norm u3
      /\ VECTOR3_dot u3 u1 = 0) ->
  SphericalJoint._s j <> [] -> SphericalJoint._s_dot j <> [] ->
  exists (j1 : SphericalJoint.t) (s1 : SVELOCITY),
    SphericalJoint.update_spatial_axes j0 = Ok j1
    /\ right_handed_orthonormal (SphericalJoint._u j1)
    /\ SphericalJoint._s j1 !! DOF_1 = Some s1
    /\ SVELOCITY_get_angular s1 = ORIGIN3_of (at1 (SphericalJoint._u j1))
    /\ SVELOCITY_get_linear s1 = origin_zero.
Proof.
  intros u1 u2 u3 EPS Heps Hparent Hpair Hs Hsd.
  destruct (assign_axes_orthogonal_pair ext j Heps Hpair) as (u' & Hrun & Hu').
  unfold SphericalJoint.update_spatial_axes.
  rewrite Hparent. cbn [mbind outcome_bind]. rewrite Hrun. cbn [negb].
  destruct (SphericalJoint._s j) as [|e1 s] eqn:Hsj; [done|].
  destruct (SphericalJoint._s_dot j) as [|d1 sd] eqn:Hsdj; [done|].
  simpl SphericalJoint._s. simpl SphericalJoint._s_dot.
  rewrite Hsj, Hsdj.
  unfold vector_modify, DOF_1. simpl.
  rewrite (axes_orthonormal_of_triad ext _ Heps) by (simpl; exact Hu').
  rewrite orb_true_r.
  eexists _, _. split; [reflexivity|]. simpl.
  split; [exact Hu'|]. split; [reflexivity|]. by split.
Qed.

Lemma update_spatial_axes_accepts_orthogonal_pair_witness :
  exists (j1 : SphericalJoint.t) (s1 : SVELOCITY),
    @SphericalJoint.update_spatial_axes sample_externals
       (sample_joint unit_x unit_y origin_zero) = Ok j1
    /\ right_handed_orthonormal (SphericalJoint._u j1)
    /\ SphericalJoint._s j1 !! DOF_1 = Some s1
    /\ SVELOCITY_get_angular s1 = ORIGIN3_of (at1 (SphericalJoint._u j1))
    /\ SVELOCITY_get_linear s1 = origin_zero.
Proof.
  apply (update_spatial_axes_accepts_orthogonal_pair sample_externals
           (sample_joint unit_x unit_y origin_zero)
           (sample_joint unit_x unit_y origin_zero)).
  - simpl. lra.
  - reflexivity.
  - left. simpl.
    rewrite norm_unit_x, norm_unit_y, norm_origin_zero.
    unfold VECTOR3_dot. simpl. repeat split; lra.
  - discriminate.
  - discriminate.
Defined.

(** ** [SPHERICALJOINT::get_spatial_axes] *)

(** [update_spatial_axes], when it assigns the axes, leaves axis 1 with a
    zero linear part as the first spatial axis. *)
Lemma update_spatial_axes_sets_first_axis
    (ext : SphericalJoint.Externals) (j0 j1 : SphericalJoint.t) :
  (exists j' : SphericalJoint.t,
     SphericalJoint.JOINT_update_spatial_axes j0 = Ok j'
     /\ fst (SphericalJoint.assign_axes j') = true) ->
  SphericalJoint.update_spatial_axes j0 = Ok j1 ->
  exists s1 : SVELOCITY,
    SphericalJoint._s j1 !! DOF_1 = Some s1
    /\ SVELOCITY_get_angular s1 = ORIGIN3_of (at1 (SphericalJoint._u j1))
    /\ SVELOCITY_get_linear s1 = origin_zero.
Proof.
  intros (j' & Hj' & Hassigned).
  unfold SphericalJoint.update_spatial_axes. rewrite Hj'.
  cbn [mbind outcome_bind].
  destruct (SphericalJoint.assign_axes j') as [b j2]. simpl in Hassigned.
  subst b. cbn [negb].
  destruct (SphericalJoint._s j2) as [|e1 s] eqn:Hs;
    [unfold vector_modify; simpl; discriminate|].
  destruct (SphericalJoint._s_dot j2) as [|d1 sd] eqn:Hsd;
    [unfold vector_modify; simpl; discriminate|].
  unfold vector_modify, DOF_1. simpl.
  destruct (_ || _); [|discriminate].
  intros [= <-]. simpl. eexists. split; [reflexivity|]. by split.
Qed.

(** X15: once [update_spatial_axes] has assigned the axes, and whatever the
    coordinates are set to afterwards, [get_spatial_axes] hands the
    base-class method three spatial axes with zero linear parts, whose
    angular parts are axis 1, R1 u2 and R1 (R2 u3), for the axis-angle
    rotations R1 about u1 by q1 + tare1 and R2 about u2 by q2 + tare2. *)
Theorem get_spatial_axes_formulas
    (ext : SphericalJoint.Externals) (j0 j1 : SphericalJoint.t)
    (qv tare qdv : array3 REAL) :
  (exists j' : SphericalJoint.t,
     SphericalJoint.JOINT_update_spatial_axes j0 = Ok j'
     /\ fst (SphericalJoint.assign_axes j') = true) ->
  SphericalJoint.update_spatial_axes j0 = Ok j1 ->
  SphericalJoint.inboard_pose j1 <> None ->
  SphericalJoint.outboard_pose j1 <> None ->
  length (SphericalJoint._s j1) = 3%nat ->
  let j := SphericalJoint.with_coordinates j1 qv tare qdv in
  let u1 := at1 (SphericalJoint._u j1) in
  let u2 := at2 (SphericalJoint._u j1) in
  let u3 := at3 (SphericalJoint._u j1) in
  let R1 := SphericalJoint.AANGLE u1 (at1 qv + at1 tare) in
  let R2 := SphericalJoint.AANGLE u2 (at2 qv + at2 tare) in
  exists s1 s2 s3 : SVELOCITY,
    SphericalJoint.get_spatial_axes j
    = SphericalJoint.JOINT_get_spatial_axes
        (SphericalJoint.with_s j [s1; s2; s3])
    /\ SVELOCITY_get_angular s1 = ORIGIN3_of u1
    /\ SVELOCITY_get_linear s1 = origin_zero
    /\ SVELOCITY_get_angular s2 = MATRIX3_mult_origin R1 (ORIGIN3_of u2)
    /\ SVELOCITY_get_linear s2 = origin_zero
    /\ SVELOCITY_get_angular s3
       = MATRIX3_mult_origin R1 (MATRIX3_mult_origin R2 (ORIGIN3_of u3))
    /\ SVELOCITY_get_linear s3 = origin_zero.
Proof.
  intros Hassigned Hupdate Hin Hout Hlen j u1 u2 u3 R1 R2.
  destruct (update_spatial_axes_sets_first_axis ext j0 j1 Hassigned Hupdate)
    as (s1 & Hs1 & Hs1a & Hs1l).
  unfold SphericalJoint.get_spatial_axes.
  simpl SphericalJoint.inboard_pose. simpl SphericalJoint.outboard_pose.
  destruct (SphericalJoint.inboard_pose j1) as [pi|]; [|done].
  destruct (SphericalJoint.outboard_pose j1) as [po|]; [|done].
  simpl SphericalJoint._s.
  destruct (SphericalJoint._s j1) as [|e1 [|e2 [|e3 [|e4 l]]]];
    try discriminate Hlen.
  injection Hs1 as ->.
  eexists _, _, _. split; [reflexivity|].
  split; [exact Hs1a|]. split; [exact Hs1l|].
  split; [reflexivity|]. split; [reflexivity|]. split; reflexivity.
Qed.

Lemma get_spatial_axes_formulas_witness :
  let qv := mkarray3 1 1 1 in
  let j := SphericalJoint.with_coordinates sample_joint_updated qv
             zero_coordinates qv in
  let u1 := at1 (SphericalJoint._u sample_joint_updated) in
  let u2 := at2 (SphericalJoint._u sample_joint_updated) in
  let u3 := at3 (SphericalJoint._u sample_joint_updated) in
  let R1 := rodrigues u1 (1 + 0) in
  let R2 := rodrigues u2 (1 + 0) in
  exists s1 s2 s3 : SVELOCITY,
    @SphericalJoint.get_spatial_axes sample_externals j
    = @SphericalJoint.JOINT_get_spatial_axes sample_externals
        (SphericalJoint.with_s j [s1; s2; s3])
    /\ SVELOCITY_get_angular s1 = ORIGIN3_of u1
    /\ SVELOCITY_get_linear s1 = origin_zero
    /\ SVELOCITY_get_angular s2 = MATRIX3_mult_origin R1 (ORIGIN3_of u2)
    /\ SVELOCITY_get_linear s2 = origin_zero
    /\ SVELOCITY_get_angular s3
       = MATRIX3_mult_origin R1 (MATRIX3_mult_origin R2 (ORIGIN3_of u3))
    /\ SVELOCITY_get_linear s3 = origin_zero.
Proof.
  apply (get_spatial_axes_formulas sample_externals
           (sample_joint unit_z unit_x unit_y) sample_joint_updated
           (mkarray3 1 1 1) zero_coordinates (mkarray3 1 1 1)).
  - exists (sample_joint unit_z unit_x unit_y).
    split; [reflexivity|]. by rewrite sample_assign_axes.
  - exact sample_update_spatial_axes.
  - discriminate.
  - discriminate.
  - reflexivity.
Defined.

(** ** [get_axis] on the canonical triad *)

(** X16: when the stored axes are the x, y and z directions and [AANGLE]
    is Rodrigues' rotation, the closed forms of [get_axis] for axes 2 and 3
    are the directions that [get_spatial_axes] computes by rotating the
    stored axes. *)
Theorem get_axis_matches_spatial_axes_on_canonical_triad
    (ext : SphericalJoint.Externals) (j : SphericalJoint.t) :
  (forall (v : VECTOR3) (a : REAL), SphericalJoint.AANGLE v a = rodrigues v a) ->
  ORIGIN3_of (at1 (SphericalJoint._u j)) = unit_x ->
  ORIGIN3_of (at2 (SphericalJoint._u j)) = unit_y ->
  ORIGIN3_of (at3 (SphericalJoint._u j)) = unit_z ->
  SphericalJoint.inboard_pose j <> None ->
  SphericalJoint.outboard_pose j <> None ->
  length (SphericalJoint._s j) = 3%nat ->
  exists s1 s2 s3 : SVELOCITY,
    SphericalJoint.get_spatial_axes j
    = SphericalJoint.JOINT_get_spatial_axes
        (SphericalJoint.with_s j [s1; s2; s3])
    /\ SVELOCITY_get_angular s2
       = ORIGIN3_of (SphericalJoint.get_axis j eAxis2)
    /\ SVELOCITY_get_angular s3
       = ORIGIN3_of (SphericalJoint.get_axis j eAxis3).
Proof.
  intros Hrot Hx Hy Hz Hin Hout Hlen.
  unfold SphericalJoint.get_spatial_axes.
  destruct (SphericalJoint.inboard_pose j) as [pi|]; [|done].
  destruct (SphericalJoint.outboard_pose j) as [po|]; [|done].
  destruct (SphericalJoint._s j) as [|e1 [|e2 [|e3 [|e4 l]]]];
    try discriminate Hlen.
  rewrite !Hrot.
  eexists _, _, _. split; [reflexivity|].
  unfold SVELOCITY_get_angular, SVELOCITY_set_linear, SVELOCITY_set_angular,
    SphericalJoint.get_axis.
  cbn [velocity_vec get_angular set_linear set_angular d0 d1 d2
       VECTOR3_of vx vy vz].
  rewrite Hy, Hz.
  injection Hx as Hx1 Hx2 Hx3. injection Hy as Hy1 Hy2 Hy3.
  unfold rodrigues, MATRIX3_mult_origin, ORIGIN3_of, unit_y, unit_z.
  cbn [ox oy oz xx xy xz yx yy yz zx zy zz vx vy vz].
  rewrite Hx1, Hx2, Hx3, Hy1, Hy2, Hy3.
  unfold_geometry.
  split; f_equal; ring.
Qed.

Lemma get_axis_matches_spatial_axes_on_canonical_triad_witness :
  exists s1 s2 s3 : SVELOCITY,
    @SphericalJoint.get_spatial_axes sample_externals
       (sample_joint unit_x unit_y unit_z)
    = @SphericalJoint.JOINT_get_spatial_axes sample_externals
        (SphericalJoint.with_s (sample_joint unit_x unit_y unit_z)
           [s1; s2; s3])
    /\ SVELOCITY_get_angular s2
       = ORIGIN3_of
           (SphericalJoint.get_axis (sample_joint unit_x unit_y unit_z) eAxis2)
    /\ SVELOCITY_get_angular s3
       = ORIGIN3_of
           (SphericalJoint.get_axis (sample_joint unit_x unit_y unit_z) eAxis3).
Proof.
  apply (get_axis_matches_spatial_axes_on_canonical_triad sample_externals
           (sample_joint unit_x unit_y unit_z));
    try reflexivity; discriminate.
Defined.

(** ** The joint at rest *)

(** X17: when the rates of the first two coordinates are zero, the
    derivatives of the second and third spatial axis that
    [get_spatial_axes_dot] returns are zero, whatever the rotation
    matrices are; the second one is zero as soon as the first rate is. *)
Theorem get_spatial_axes_dot_at_rest
    (ext : SphericalJoint.Externals) (j : SphericalJoint.t) :
  SphericalJoint.inboard_pose j <> None ->
  SphericalJoint.outboard_pose j <> None ->
  length (SphericalJoint._s_dot j) = 3%nat ->
  at1 (SphericalJoint.qd j) = 0 ->
  exists (j' : SphericalJoint.t) (sd1 sd2 sd3 : SVELOCITY),
    SphericalJoint.get_spatial_axes_dot j = Ok (j', [sd1; sd2; sd3])
    /\ SVELOCITY_get_angular sd2 = origin_zero
    /\ SVELOCITY_get_linear sd2 = origin_zero
    /\ (at2 (SphericalJoint.qd j) = 0 ->
        SVELOCITY_get_angular sd3 = origin_zero
        /\ SVELOCITY_get_linear sd3 = origin_zero).
Proof.
  intros Hin Hout Hlen Hqd1.
  unfold SphericalJoint.get_spatial_axes_dot.
  destruct (SphericalJoint.inboard_pose j) as [pi|]; [|done].
  destruct (SphericalJoint.outboard_pose j) as [po|]; [|done].
  destruct (SphericalJoint._s_dot j) as [|e1 [|e2 [|e3 [|e4 l]]]];
    try discriminate Hlen.
  eexists _, _, _, _. split; [reflexivity|].
  rewrite Hqd1.
  split; [unfold_geometry; f_equal; ring|]. split; [reflexivity|].
  intros Hqd2. rewrite Hqd2.
  split; [unfold_geometry; f_equal; ring|reflexivity].
Qed.

Lemma get_spatial_axes_dot_at_rest_witness :
  exists (j' : SphericalJoint.t) (sd1 sd2 sd3 : SVELOCITY),
    @SphericalJoint.get_spatial_axes_dot sample_externals
       (sample_joint unit_z unit_x unit_y) = Ok (j', [sd1; sd2; sd3])
    /\ SVELOCITY_get_angular sd2 = origin_zero
    /\ SVELOCITY_get_linear sd2 = origin_zero
    /\ (at2 (SphericalJoint.qd (sample_joint unit_z unit_x unit_y)) = 0 ->
        SVELOCITY_get_angular sd3 = origin_zero
        /\ SVELOCITY_get_linear sd3 = origin_zero).
Proof.
  apply (get_spatial_axes_dot_at_rest sample_externals
           (sample_joint unit_z unit_x unit_y));
    try reflexivity; discriminate.
Defined.

(** ** [SPHERICALJOINT::rel_equal] *)





(** ** [SPHERICALJOINT::get_rotation] *)

Lemma rodrigues_zero_angle (v : VECTOR3) : rodrigues v 0 = MATRIX3_identity.
Proof.
  unfold rodrigues, MATRIX3_identity. rewrite cos_0, sin_0. f_equal; ring.
Qed.

Lemma MATRIX3_mult_identity_l (m : MATRIX3) :
  MATRIX3_mult MATRIX3_identity m = m.
Proof. destruct m. unfold MATRIX3_mult, MATRIX3_identity. simpl. f_equal; ring. Qed.

(** X19: when the rotation of an axis-angle pair with angle zero is the
    identity, the rotation of a joint whose three coordinates cancel their
    tares is the identity. *)
Theorem get_rotation_identity_at_tare
    (ext : SphericalJoint.Externals) (j : SphericalJoint.t) :
  (forall v : VECTOR3, SphericalJoint.AANGLE v 0 = MATRIX3_identity) ->
  at1 (SphericalJoint.q j) + at1 (SphericalJoint._q_tare j) = 0 ->
  at2 (SphericalJoint.q j) + at2 (SphericalJoint._q_tare j) = 0 ->
  at3 (SphericalJoint.q j) + at3 (SphericalJoint._q_tare j) = 0 ->
  SphericalJoint.get_rotation j = MATRIX3_identity.
Proof.
  intros Hzero H1 H2 H3. unfold SphericalJoint.get_rotation.
  rewrite H1, H2, H3, !Hzero. by rewrite !MATRIX3_mult_identity_l.
Qed.

Lemma get_rotation_identity_at_tare_witness :
  @SphericalJoint.get_rotation sample_externals
     (sample_joint unit_z unit_x unit_y) = MATRIX3_identity.
Proof.
  apply (get_rotation_identity_at_tare sample_externals
           (sample_joint unit_z unit_x unit_y)).
  - intros v. apply rodrigues_zero_angle.
  - simpl. lra.
  - simpl. lra.
  - simpl. lra.
Defined.

(** X20: when the rotation about an axis leaves that axis where it is, the
    rotation of the joint takes the stored third axis to the direction
    that [get_spatial_axes] gives the third spatial axis: R1 (R2 u3). *)
Theorem get_rotation_maps_third_axis
    (ext : SphericalJoint.Externals) (j : SphericalJoint.t) :
  let u1 := at1 (SphericalJoint._u j) in
  let u2 := at2 (SphericalJoint._u j) in
  let u3 := at3 (SphericalJoint._u j) in
  let R1 := SphericalJoint.AANGLE u1
              (at1 (SphericalJoint.q j) + at1 (SphericalJoint._q_tare j)) in
  let R2 := SphericalJoint.AANGLE u2
              (at2 (SphericalJoint.q j) + at2 (SphericalJoint._q_tare j)) in
  (forall a : REAL,
     MATRIX3_mult_origin (SphericalJoint.AANGLE u3 a) (ORIGIN3_of u3)
     = ORIGIN3_of u3) ->
  MATRIX3_mult_origin (SphericalJoint.get_rotation j) (ORIGIN3_of u3)
  = MATRIX3_mult_origin R1 (MATRIX3_mult_origin R2 (ORIGIN3_of u3)).
Proof.
  intros u1 u2 u3 R1 R2 Hfix. unfold SphericalJoint.get_rotation.
  fold u1 u2 u3. fold R1 R2.
  by rewrite !MATRIX3_mult_origin_assoc, Hfix.
Qed.

Lemma get_rotation_maps_third_axis_witness :
  let j := sample_joint unit_z unit_x unit_y in
  let u1 := at1 (SphericalJoint._u j) in
  let u2 := at2 (SphericalJoint._u j) in
  let u3 := at3 (SphericalJoint._u j) in
  MATRIX3_mult_origin (@SphericalJoint.get_rotation sample_externals j)
    (ORIGIN3_of u3)
  = MATRIX3_mult_origin (rodrigues u1 (0 + 0))
      (MATRIX3_mult_origin (rodrigues u2 (0 + 0)) (ORIGIN3_of u3)).
Proof.
  apply (get_rotation_maps_third_axis sample_externals
           (sample_joint unit_z unit_x unit_y)).
  intros a. simpl. unfold_geometry. f_equal; ring.
Defined.
